(** * Structured code chunking: a shallow embedding of
    [backend/code_ingest_utils.py] and the properties of its boundary
    detector and chunk assembler.

    Python values are modelled as follows.
    - a [str] holding file text is a list of Unicode code points ([N]);
      whitespace is the set CPython's [str.isspace], [str.strip] and the
      [\s] class of [re] share;
    - strings that are only copied or compared for equality (language tags,
      paths, file names, the chunk type) are [string]s;
    - list indices produced by [enumerate] and [len] are [nat]; the window
      arithmetic of [create_documents_from_file], which involves the caller's
      [chunk_max_lines: int], is done in [Z];
    - an indexing [l[i]] may raise [IndexError], a [while] loop may run for
      ever: both are visible in the [result] type.  A loop is run with a
      bound [fuel] on its passes and reports [OutOfFuel] when the bound is
      reached before the loop condition fails. *)

From Stdlib Require Import String Ascii DecimalString.
From Stdlib Require Import List Sorted ZArith NArith Arith Lia Bool.
Import ListNotations.

(* ------------------------------------------------------------------ *)
(** ** Outcomes of running Python code *)

Inductive exn := IndexError.

Inductive result (A : Type) : Type :=
| Return (a : A)          (* the code ran to completion *)
| Raise (e : exn)         (* an exception escaped *)
| OutOfFuel.              (* a [while] loop was still running when fuel ran out *)

Arguments Return {A} a.
Arguments Raise {A} e.
Arguments OutOfFuel {A}.

Definition bind {A B} (m : result A) (k : A -> result B) : result B :=
  match m with
  | Return a => k a
  | Raise e => Raise e
  | OutOfFuel => OutOfFuel
  end.

Declare Scope py_scope.
Delimit Scope py_scope with py.
Notation "x <- m ;; k" := (bind m (fun x => k))
  (at level 61, m at next level, right associativity) : py_scope.
Open Scope py_scope.

(** [for x in l: acc.append(f(x))], starting from an empty [acc]. *)
Fixpoint mapM {A B} (f : A -> result B) (l : list A) : result (list B) :=
  match l with
  | [] => Return []
  | x :: l' => y <- f x ;; ys <- mapM f l' ;; Return (y :: ys)
  end.

(** [l[i]] for [i >= 0]. *)
Definition index {A} (l : list A) (i : nat) : result A :=
  match nth_error l i with
  | Some x => Return x
  | None => Raise IndexError
  end.

(** [enumerate(l)]. *)
Definition enumerate {A} (l : list A) : list (nat * A) :=
  combine (seq 0 (length l)) l.

(** [range(start, stop, step)] for [step > 0]: CPython computes the length
    and then the items [start + i * step]. *)
Definition py_range (start stop step : nat) : list nat :=
  let len := if start <? stop then (stop - start - 1) / step + 1 else 0 in
  map (fun i => start + i * step) (seq 0 len).

(* ------------------------------------------------------------------ *)
(** ** Text *)

Module PyStr.

Definition char := N.
Definition str := list char.

(** An ASCII literal. *)
Definition lit (s : string) : str :=
  map N_of_ascii (list_ascii_of_string s).

(** [Py_UNICODE_ISSPACE]. *)
Definition isspace (c : char) : bool :=
  ((9 <=? c) && (c <=? 13) || (28 <=? c) && (c <=? 32)
   || (c =? 133) || (c =? 160) || (c =? 5760)
   || (8192 <=? c) && (c <=? 8202)
   || (c =? 8232) || (c =? 8233) || (c =? 8239) || (c =? 8287)
   || (c =? 12288))%N.

Fixpoint lstrip (s : str) : str :=
  match s with
  | c :: s' => if isspace c then lstrip s' else s
  | [] => []
  end.

Definition rstrip (s : str) : str := rev (lstrip (rev s)).

Definition strip (s : str) : str := lstrip (rstrip s).

(** [s.startswith(p)], returning the rest of [s] behind [p]. *)
Fixpoint strip_prefix (p s : str) : option str :=
  match p, s with
  | [], _ => Some s
  | a :: p', b :: s' => if (a =? b)%N then strip_prefix p' s' else None
  | _ :: _, [] => None
  end.

Definition startswith (s p : str) : bool :=
  match strip_prefix p s with Some _ => true | None => false end.

(** ["".join(l)]. *)
Definition join (l : list str) : str := concat l.

(** The truth value of a string in a condition. *)
Definition truthy (s : str) : bool :=
  match s with [] => false | _ :: _ => true end.

(** A line with nothing but whitespace on it. *)
Definition blank (s : str) : bool := forallb isspace s.

End PyStr.
Import PyStr.

(* ------------------------------------------------------------------ *)
(** ** The fragment of [re] the two patterns use

    [pattern.match(s)] looks for a match that starts at the beginning of
    [s]; the matcher backtracks through a continuation. *)

Module Re.

Inductive regex :=
| Lit (s : str)              (* literal text *)
| Spaces                     (* \s+ *)
| Cat (r1 r2 : regex)        (* r1 r2 *)
| Alt (r1 r2 : regex)        (* r1|r2 *)
| Opt (r : regex).           (* (r)? *)

Fixpoint spaces (k : str -> bool) (s : str) : bool :=
  match s with
  | c :: s' => isspace c && (spaces k s' || k s')
  | [] => false
  end.

Fixpoint run (r : regex) (s : str) (k : str -> bool) : bool :=
  match r with
  | Lit l => match strip_prefix l s with Some s' => k s' | None => false end
  | Spaces => spaces k s
  | Cat r1 r2 => run r1 s (fun s' => run r2 s' k)
  | Alt r1 r2 => run r1 s k || run r2 s k
  | Opt r1 => run r1 s k || k s
  end.

Definition matches (r : regex) (s : str) : bool := run r s (fun _ => true).

End Re.
Import Re.

(* ------------------------------------------------------------------ *)
(** ** Language classifier *)

Definition EXT_LANG_MAP : list (string * string) :=
  [ (".py", "python");
    (".js", "javascript");
    (".jsx", "javascript");
    (".ts", "typescript");
    (".tsx", "typescript");
    (".json", "json");
    (".md", "markdown");
    (".toml", "toml");
    (".yml", "yaml");
    (".yaml", "yaml");
    (".cfg", "ini");
    (".ini", "ini");
    (".txt", "text") ]%string.

(** [d.get(key, default)]. *)
Fixpoint dict_get (d : list (string * string)) (key default : string) : string :=
  match d with
  | [] => default
  | (k, v) :: d' => if (k =? key)%string then v else dict_get d' key default
  end.

(** What [pathlib] reports for a path: [str(path)], [Path(path).name] and
    [Path(path).suffix.lower()]. *)
Record PathInfo := {
  path_str : string;
  path_name : string;
  path_suffix_lower : string
}.

Definition detect_language_from_path (p : PathInfo) : string :=
  let ext := path_suffix_lower p in
  dict_get EXT_LANG_MAP ext "text".

(* ------------------------------------------------------------------ *)
(** ** Boundary detector *)

(** [re.compile(r"^(def |class )")] *)
Definition python_pattern : regex :=
  Alt (Lit (lit "def ")) (Lit (lit "class ")).

(** [re.compile(r"^(export\s+)?(function |class |const |let |var )")] *)
Definition js_pattern : regex :=
  Cat (Opt (Cat (Lit (lit "export")) Spaces))
      (Alt (Lit (lit "function "))
      (Alt (Lit (lit "class "))
      (Alt (Lit (lit "const "))
      (Alt (Lit (lit "let "))
           (Lit (lit "var ")))))).

(** The pattern chosen by the [if]/[elif] chain; [None] is the [else]. *)
Definition pattern_of (language : string) : option regex :=
  if (language =? "python")%string then Some python_pattern
  else if ((language =? "javascript") || (language =? "typescript"))%string
       then Some js_pattern
  else None.

(** [pattern.match(line.lstrip())] *)
Definition is_start (pattern : regex) (line : str) : bool :=
  matches pattern (lstrip line).

(** [lines[j].lstrip().startswith("@")] *)
Definition is_decorator (line : str) : bool :=
  startswith (lstrip line) (lit "@").

(** The first loop: the indices of the lines that start a block. *)
Definition start_indices (pattern : regex) (lines : list str) : list nat :=
  map fst (filter (fun il => is_start pattern (snd il)) (enumerate lines)).

(** [j = start - 1; while j >= 0 and lines[j]...startswith("@"): j -= 1;
    start = j + 1].  The argument is [j + 1], so that [0] stands for
    [j = -1] and [S j] for an index [j >= 0]; the value is the new [start]. *)
Fixpoint walk_back (lines : list str) (start : nat) : result nat :=
  match start with
  | O => Return 0
  | S j =>
      line <- index lines j ;;
      if is_decorator line then walk_back lines j else Return (S j)
  end.

(** [if language == "python": ...], giving the new [start]. *)
Definition adjust_start (lines : list str) (language : string) (start : nat)
  : result nat :=
  if (language =? "python")%string then walk_back lines start
  else Return start.

(** One pass of the body of [for i, start in enumerate(indices)]. *)
Definition block_range (lines : list str) (language : string)
    (indices : list nat) (i_start : nat * nat) : result (nat * nat) :=
  let (i, start) := i_start in
  end_ <- (if i + 1 <? length indices then index indices (i + 1)
           else Return (length lines)) ;;
  start <- adjust_start lines language start ;;
  Return (start, end_).

(** [if boundaries and boundaries[0][0] > 0: boundaries.insert(0, ...)] *)
Definition insert_leading (boundaries : list (nat * nat)) : list (nat * nat) :=
  match boundaries with
  | (s, _) :: _ => if 0 <? s then (0, s) :: boundaries else boundaries
  | [] => boundaries
  end.

Definition find_code_block_boundaries (lines : list str) (language : string)
  : result (list (nat * nat)) :=
  match pattern_of language with
  | None =>
      let size := 200 in
      let n := length lines in
      Return (map (fun i => (i, Nat.min (i + size) n)) (py_range 0 n size))
  | Some pattern =>
      let indices := start_indices pattern lines in
      match indices with
      | [] => Return [(0, length lines)]
      | _ :: _ =>
          boundaries <- mapM (block_range lines language indices)
                             (enumerate indices) ;;
          Return (insert_leading boundaries)
      end
  end.

(* ------------------------------------------------------------------ *)
(** ** Chunk assembler *)

(** The metadata dictionary of a chunk. *)
Record Metadata := {
  path : string;
  filename : string;
  language : string;
  chunk_type : string;
  line_start : Z;
  line_end : Z
}.

(** [langchain.schema.Document]. *)
Record Document := {
  page_content : str;
  metadata : Metadata
}.

(** Where a slice bound lands in a list of [len] items: a negative bound
    counts from the end, and both ends are clamped. *)
Definition slice_bound (len i : Z) : Z :=
  if (i <? 0)%Z then Z.max (i + len) 0 else Z.min i len.

(** [l[a:b]] *)
Definition slice {A} (l : list A) (a b : Z) : list A :=
  let len := Z.of_nat (length l) in
  let lo := slice_bound len a in
  let hi := slice_bound len b in
  firstn (Z.to_nat (hi - lo)) (skipn (Z.to_nat lo) l).

(** [language not in ("markdown", "text", "json", "toml", "yaml")] *)
Definition not_in_prose_tags (language : string) : bool :=
  negb (existsb (String.eqb language)
          ["markdown"; "text"; "json"; "toml"; "yaml"]%string).

Section Assembler.

Variable p : PathInfo.
Variable lang : string.   (* the local [language] *)
Variable lines : list str.
Variable chunk_max_lines : Z.

(** The window the loop looks at when it stands at [cur]. *)
Definition chunk_end_of (cur end_ : Z) : Z := Z.min (cur + chunk_max_lines) end_.

(** ["".join(lines[cur:chunk_end]).rstrip()] *)
Definition content_of (cur chunk_end : Z) : str :=
  rstrip (join (slice lines cur chunk_end)).

Definition make_document (cur chunk_end : Z) (content : str) : Document :=
  {| page_content := content;
     metadata :=
       {| path := path_str p;
          filename := path_name p;
          language := lang;
          chunk_type := if not_in_prose_tags lang then "code" else "prose";
          line_start := cur + 1;
          line_end := chunk_end |} |}.

(** The body of [while cur < end], run at most [fuel] times: the new
    [docs] when the loop ends. *)
Fixpoint window_loop (fuel : nat) (cur end_ : Z) (docs : list Document)
  : result (list Document) :=
  if (cur <? end_)%Z then
    match fuel with
    | O => OutOfFuel
    | S fuel' =>
        let chunk_end := chunk_end_of cur end_ in
        let content := content_of cur chunk_end in
        if negb (truthy (strip content)) then
          window_loop fuel' chunk_end end_ docs
        else
          window_loop fuel' chunk_end end_
            (docs ++ [make_document cur chunk_end content])
    end
  else Return docs.

(** [for start, end in boundaries: ...] *)
Fixpoint for_boundaries (fuel : nat) (boundaries : list (nat * nat))
    (docs : list Document) : result (list Document) :=
  match boundaries with
  | [] => Return docs
  | (start, end_) :: rest =>
      docs' <- window_loop fuel (Z.of_nat start) (Z.of_nat end_) docs ;;
      for_boundaries fuel rest docs'
  end.

(** Everything [create_documents_from_file] does once the language is
    known and the lines are read; [fuel] bounds the passes of each
    [while] loop. *)
Definition produce_chunks (fuel : nat) : result (list Document) :=
  boundaries <- find_code_block_boundaries lines lang ;;
  for_boundaries fuel boundaries [].

End Assembler.

(** [lines] is what [read_file_preserve(path)] returned. *)
Definition create_documents_from_file (p : PathInfo) (lines : list str)
    (chunk_max_lines : Z) (fuel : nat) : result (list Document) :=
  let language := detect_language_from_path p in
  produce_chunks p language lines chunk_max_lines fuel.

(** The number of source lines a chunk cites. *)
Definition covered_lines (d : Document) : Z :=
  line_end (metadata d) - line_start (metadata d) + 1.

(* ------------------------------------------------------------------ *)
(** ** Vocabulary of the statements *)

(** Line [k] lies in the half-open range [r]. *)
Definition in_range (k : nat) (r : nat * nat) : bool :=
  (fst r <=? k) && (k <? snd r).

(** Two ranges share a line. *)
Definition overlap (r1 r2 : nat * nat) : bool :=
  (Nat.max (fst r1) (fst r2) <? Nat.min (snd r1) (snd r2)).

(** [rs] cuts [[a, b)] into consecutive ranges: the first starts at [a],
    each one starts where the one before it ends, the last ends at [b]. *)
Fixpoint tiles (a b : nat) (rs : list (nat * nat)) : Prop :=
  match rs with
  | [] => a = b
  | (s, e) :: rs' => s = a /\ s <= e /\ tiles e b rs'
  end.

(** A weaker chain: each range starts at or before the line reached so
    far and ends at or after it, so that no line of [[a, b)] is left out,
    but a range may begin inside the one before it. *)
Fixpoint covers (a b : nat) (rs : list (nat * nat)) : Prop :=
  match rs with
  | [] => a = b
  | (s, e) :: rs' => s <= a /\ a <= e /\ covers e b rs'
  end.

(** The same for the windows of the assembler, which are never empty. *)
Fixpoint ztiles (a b : Z) (ws : list (Z * Z)) : Prop :=
  match ws with
  | [] => a = b
  | (s, e) :: ws' => s = a /\ (s < e)%Z /\ ztiles e b ws'
  end.

(** What the second loop of the detector computes, read off the list of
    indices: each start is adjusted, each end is the next index, the last
    end is the end of the file. *)
Inductive block_ranges (lines : list str) (lang : string)
  : list nat -> list (nat * nat) -> Prop :=
| block_ranges_nil : block_ranges lines lang [] []
| block_ranges_last x s :
    adjust_start lines lang x = Return s ->
    block_ranges lines lang [x] [(s, length lines)]
| block_ranges_cons x y rest s bs :
    adjust_start lines lang x = Return s ->
    block_ranges lines lang (y :: rest) bs ->
    block_ranges lines lang (x :: y :: rest) ((s, y) :: bs).

(** What the pass of the [while] loop over the window [w] appends to
    [docs]: the chunk of the window, or nothing when its text is blank. *)
Definition emitted (p : PathInfo) (lang : string) (lines : list str)
    (w : Z * Z) : list Document :=
  let content := content_of lines (fst w) (snd w) in
  if truthy (strip content) then [make_document p lang (fst w) (snd w) content]
  else [].

(** The windows of one boundary range [b]: they cut it into consecutive
    pieces, each one ending where [min(cur + chunk_max_lines, end)] puts
    it. *)
Definition windows_of (chunk_max_lines : Z) (b : nat * nat)
    (ws : list (Z * Z)) : Prop :=
  ztiles (Z.of_nat (fst b)) (Z.of_nat (snd b)) ws
  /\ Forall (fun w => snd w = chunk_end_of chunk_max_lines (fst w)
                                 (Z.of_nat (snd b))) ws.

(** The newline-terminated line with the ASCII text [s]. *)
Definition nl (s : string) : str := lit s ++ [10%N].

(** Some paths, as [pathlib] reports them. *)
Definition mod_py : PathInfo :=
  {| path_str := "pkg/mod.py"; path_name := "mod.py";
     path_suffix_lower := ".py" |}.

Definition app_js : PathInfo :=
  {| path_str := "web/app.js"; path_name := "app.js";
     path_suffix_lower := ".js" |}.

(** A script that opens with two blank lines. *)
Definition blank_then_code : list str :=
  map nl [ ""; "  "; "const a = 1" ]%string.

Definition notes_txt : PathInfo :=
  {| path_str := "notes.txt"; path_name := "notes.txt";
     path_suffix_lower := ".txt" |}.

(** A file of one line. *)
Definition one_line : list str := [nl "remember the milk"].

(** A Python file whose second definition carries a decorator. *)
Definition two_defs : list str :=
  map nl [ "def f():"; "    pass"; "@deco"; "def g():"; "    pass" ]%string.

(** The file of the decorator test: [@deco\ndef f():\n    pass]. *)
Definition deco_file : list str :=
  [nl "@deco"; nl "def f():"; lit "    pass"].

Definition setup_cfg : PathInfo :=
  {| path_str := "setup.cfg"; path_name := "setup.cfg";
     path_suffix_lower := ".cfg" |}.

(** The lines of a configuration file. *)
Definition cfg_lines : list str :=
  map nl [ "[metadata]"; "name = demo" ]%string.

Definition pyproject_toml : PathInfo :=
  {| path_str := "pyproject.toml"; path_name := "pyproject.toml";
     path_suffix_lower := ".toml" |}.

(** A script of 401 statements and no definition. *)
Definition long_script : list str := repeat (nl "x = 1") 401.

(** A Python file of ten lines with two definitions. *)
Definition ten_lines : list str :=
  map nl [ "import os"; "";
           "def f():"; "    return 1"; "";
           "def g():"; "    x = 2"; "    return x"; "";
           "print(g())" ]%string.

(** The ranges cited by a list of chunks. *)
Definition cited (docs : list Document) : list (Z * Z) :=
  map (fun d => (line_start (metadata d), line_end (metadata d))) docs.

(* ================================================================== *)
(** * The callers and consumers of the chunker

    [ingest_codebase.py] walks a directory, chunks every file it keeps and
    prepares the chunks for the index; [code_qa.py] renders retrieved
    chunks with their citations; [code_retriever.py] picks the number of
    results from the wording of the question.  The directory walk, the
    vector store and the language model stay outside: what they hand to
    the code is an input here. *)

(* ------------------------------------------------------------------ *)
(** ** Metadata dictionaries *)

(** What this code puts into a metadata dictionary or gets out of one;
    [VNone] is the [None] that [d.get(key)] gives for a missing key. *)
Inductive value :=
| VStr (s : string)
| VInt (z : Z)
| VNone.

(** A dictionary, in insertion order; a key occurs once. *)
Definition dict := list (string * value).

Fixpoint md_find (d : dict) (key : string) : option value :=
  match d with
  | [] => None
  | (k, v) :: d' => if (k =? key)%string then Some v else md_find d' key
  end.

(** [key in d] *)
Definition md_has (d : dict) (key : string) : bool :=
  match md_find d key with Some _ => true | None => false end.

(** [d.get(key, default)]; [d.get(key)] is [md_get d key VNone]. *)
Definition md_get (d : dict) (key : string) (default : value) : value :=
  match md_find d key with Some v => v | None => default end.

(** [d[key] = v] *)
Fixpoint md_set (d : dict) (key : string) (v : value) : dict :=
  match d with
  | [] => [(key, v)]
  | (k, v') :: d' =>
      if (k =? key)%string then (k, v) :: d' else (k, v') :: md_set d' key v
  end.

(** The truth value of a [value] in a condition or under [or]. *)
Definition value_truthy (v : value) : bool :=
  match v with
  | VStr s => negb (s =? "")%string
  | VInt z => negb (z =? 0)%Z
  | VNone => false
  end.

(** [a or b] *)
Definition value_or (a b : value) : value :=
  if value_truthy a then a else b.

(** [str(v)], which is also how an f-string renders [{v}]. *)
Definition value_str (v : value) : string :=
  match v with
  | VStr s => s
  | VInt z => NilZero.string_of_int (Z.to_int z)
  | VNone => "None"
  end.

(** A [Document] whose metadata is a dictionary open to new keys. *)
Record Doc := {
  doc_content : str;
  doc_metadata : dict
}.

(** The dictionary literal of [create_documents_from_file]. *)
Definition metadata_dict (m : Metadata) : dict :=
  [ ("path", VStr (path m));
    ("filename", VStr (filename m));
    ("language", VStr (language m));
    ("chunk_type", VStr (chunk_type m));
    ("line_start", VInt (line_start m));
    ("line_end", VInt (line_end m)) ]%string.

Definition as_doc (d : Document) : Doc :=
  {| doc_content := page_content d;
     doc_metadata := metadata_dict (metadata d) |}.

(* ------------------------------------------------------------------ *)
(** ** [iter_files] *)

Definition include_exts : list string :=
  [ ".py"; ".pyi"; ".js"; ".jsx"; ".ts"; ".tsx"; ".json"; ".md"; ".toml";
    ".yaml"; ".yml"; ".cfg"; ".ini"; ".txt" ]%string.

Definition exclude_dirs : list string :=
  [ "node_modules"; "venv"; ".venv"; "dist"; "build"; "__pycache__";
    ".git" ]%string.

(** [x in s] for a set of strings. *)
Definition str_in (x : string) (s : list string) : bool :=
  existsb (String.eqb x) s.

(** One path [fp] of [Path(path).rglob("*")]: what [pathlib] reports for
    it ([str(fp)], [fp.name], [fp.suffix.lower()]), [fp.parts] and
    [fp.is_file()]. *)
Record Entry := {
  entry_path : PathInfo;
  entry_parts : list string;
  entry_is_file : bool
}.

(** The paths the generator yields, in the order of the walk.  It yields
    [str(fp)]; the record holds what [Path(str(fp))] will report again
    when the chunker looks at that string. *)
Definition iter_files (walk : list Entry) : list PathInfo :=
  map entry_path
    (filter (fun fp =>
               entry_is_file fp
               && negb (existsb (fun part => str_in part exclude_dirs)
                          (entry_parts fp))
               && str_in (path_suffix_lower (entry_path fp)) include_exts)
       walk).

(* ------------------------------------------------------------------ *)
(** ** [ingest_codebase]: from the files to the documents to index *)


(** The loop "Ensure minimal metadata for indexing". *)
Definition ensure_minimal (doc : Doc) : Doc :=
  let md := doc_metadata doc in
  let md :=
    if negb (md_has md "source") then
      md_set md "source" (VStr (value_str (md_get md "source" (VStr ""))))
    else md in
  let md :=
    if negb (md_has md "path") then
      md_set md "path" (md_get md "source" (VStr ""))
    else md in
  {| doc_content := doc_content doc; doc_metadata := md |}.




(* ------------------------------------------------------------------ *)
(** ** [format_context] *)

(** Metadata strings enter the text of the context character by
    character, each read as the code point of its byte. *)
Definition text_of (s : string) : str := lit s.

(** [sep.join(parts)] *)
Fixpoint str_join (sep : str) (parts : list str) : str :=
  match parts with
  | [] => []
  | [x] => x
  | x :: rest => x ++ sep ++ str_join sep rest
  end.

(** The header of one document. *)
Definition context_header (md : dict) : str :=
  let filename := value_or (md_get md "filename" VNone) (md_get md "path" VNone) in
  let start := md_get md "line_start" VNone in
  let end_ := md_get md "line_end" VNone in
  if value_truthy start && value_truthy end_ then
    text_of ("### " ++ value_str filename ++ " [" ++ value_str start ++ "-"
             ++ value_str end_ ++ "]")
  else
    text_of ("### " ++ value_str filename).

(** The fenced text of one document. *)
Definition context_fence (content : str) : str :=
  (lit "```" ++ [10%N]) ++ content ++ ([10%N] ++ lit "```").

(** The two parts a document adds to [parts]. *)
Definition context_parts (d : Doc) : list str :=
  [context_header (doc_metadata d); context_fence (doc_content d)].

Definition format_context (docs : list Doc) : str :=
  str_join [10%N; 10%N] (flat_map context_parts docs).

(* ------------------------------------------------------------------ *)
(** ** [detect_intent] and the search arguments *)

Definition file_pattern : regex :=
  Alt (Lit (lit "where")) (Alt (Lit (lit "which file"))
      (Alt (Lit (lit "what file")) (Lit (lit "where is")))).

Definition how_pattern : regex :=
  Alt (Lit (lit "how")) (Alt (Lit (lit "how do"))
      (Alt (Lit (lit "how can")) (Lit (lit "how to")))).

Definition why_pattern : regex :=
  Alt (Lit (lit "why")) (Alt (Lit (lit "explain why"))
      (Lit (lit "what is the reason"))).

Section Intent.

(** [str.lower], which is the interpreter's. *)
Variable lower : str -> str.

Definition detect_intent (query : str) : string :=
  let q := lower (strip query) in
  if matches file_pattern q then "file"
  else if matches how_pattern q then "how"
  else if matches why_pattern q then "why"
  else "explain".

End Intent.

(** The search arguments: the dictionary [{"k": ..., "return_uuids": ...}]. *)
Record SearchKwargs := {
  kw_k : Z;                  (* "k" *)
  kw_return_uuids : bool     (* "return_uuids" *)
}.

Definition get_search_kwargs_for_intent (intent : string) : SearchKwargs :=
  if (intent =? "file")%string then {| kw_k := 3; kw_return_uuids := true |}
  else if ((intent =? "how") || (intent =? "why"))%string
       then {| kw_k := 6; kw_return_uuids := true |}
  else {| kw_k := 5; kw_return_uuids := true |}.

(** The [search_kwargs] [make_code_retriever] gives to the retriever. *)
Definition retriever_search_kwargs (intent : option string) : SearchKwargs :=
  match intent with
  | None => get_search_kwargs_for_intent "explain"
  | Some intent => get_search_kwargs_for_intent intent
  end.

(** [str.lower] on text without a cased character outside ASCII. *)
Definition ascii_lower (s : str) : str :=
  map (fun c => if ((65 <=? c) && (c <=? 90))%N then (c + 32)%N else c) s.

(** A small tree as [rglob] walks it from the root [proj]. *)
Definition demo_walk : list Entry :=
  [ {| entry_path := {| path_str := "proj/src"; path_name := "src";
                        path_suffix_lower := "" |};
       entry_parts := ["proj"; "src"]; entry_is_file := false |};
    {| entry_path := {| path_str := "proj/src/a.py"; path_name := "a.py";
                        path_suffix_lower := ".py" |};
       entry_parts := ["proj"; "src"; "a.py"]; entry_is_file := true |};
    {| entry_path := {| path_str := "proj/src/a.pyi"; path_name := "a.pyi";
                        path_suffix_lower := ".pyi" |};
       entry_parts := ["proj"; "src"; "a.pyi"]; entry_is_file := true |};
    {| entry_path := {| path_str := "proj/build/b.js"; path_name := "b.js";
                        path_suffix_lower := ".js" |};
       entry_parts := ["proj"; "build"; "b.js"]; entry_is_file := true |};
    {| entry_path := {| path_str := "proj/logo.PNG"; path_name := "logo.PNG";
                        path_suffix_lower := ".png" |};
       entry_parts := ["proj"; "logo.PNG"]; entry_is_file := true |} ]%string.

(** The same tree under the root [build/proj]. *)
Definition build_walk : list Entry :=
  map (fun e =>
         {| entry_path :=
              {| path_str := "build/" ++ path_str (entry_path e);
                 path_name := path_name (entry_path e);
                 path_suffix_lower := path_suffix_lower (entry_path e) |};
            entry_parts := "build"%string :: entry_parts e;
            entry_is_file := entry_is_file e |}) demo_walk.

(** A chunk as [ingest_codebase] hands it to the index: the six keys of
    the chunker and [source], which repeats [path]. *)
Definition indexed (c : Document) : Doc :=
  {| doc_content := page_content c;
     doc_metadata :=
       metadata_dict (metadata c)
       ++ [("source"%string, VStr (path (metadata c)))] |}.

(** [s.startswith(p)] for an ASCII literal [p]. *)
Definition starts (s : str) (p : string) : bool := startswith s (lit p).


(* ================================================================== *)
(** * Properties *)

(* ------------------------------------------------------------------ *)
(** ** The result monad *)

Lemma bind_Return_inv {A B} (m : result A) (k : A -> result B) (b : B) :
  bind m k = Return b -> exists a, m = Return a /\ k a = Return b.
Proof.
  destruct m as [a| |]; simpl; intros H; try discriminate.
  exists a; split; [reflexivity | exact H].
Qed.

Lemma mapM_cons_inv {A B} (f : A -> result B) x l ys :
  mapM f (x :: l) = Return ys ->
  exists y ys', ys = y :: ys' /\ f x = Return y /\ mapM f l = Return ys'.
Proof.
  simpl. intros H.
  apply bind_Return_inv in H as (y & Hy & H).
  apply bind_Return_inv in H as (ys' & Hys & H).
  injection H as <-. eauto.
Qed.

Lemma index_nth_error {A} (l : list A) i x :
  nth_error l i = Some x -> index l i = Return x.
Proof. unfold index. intros ->. reflexivity. Qed.

Lemma index_in_range {A} (l : list A) i (d : A) :
  i < length l -> index l i = Return (nth i l d).
Proof.
  intros H. apply index_nth_error. now apply nth_error_nth'.
Qed.

(* ------------------------------------------------------------------ *)
(** ** Text *)

Lemma lstrip_blank s : blank s = true -> lstrip s = [].
Proof.
  induction s as [|c s IH]; simpl; [reflexivity|].
  intros H. apply andb_true_iff in H as [-> H]. now apply IH.
Qed.

Lemma lstrip_nil_blank s : lstrip s = [] -> blank s = true.
Proof.
  induction s as [|c s IH]; simpl; [reflexivity|].
  destruct (isspace c); [exact IH | discriminate].
Qed.

Lemma blank_rev s : blank (rev s) = blank s.
Proof.
  unfold blank. induction s as [|c s IH]; simpl; [reflexivity|].
  rewrite forallb_app, IH. simpl. rewrite andb_true_r. apply andb_comm.
Qed.

Lemma blank_lstrip s : blank (lstrip s) = blank s.
Proof.
  induction s as [|c s IH]; simpl; [reflexivity|].
  destruct (isspace c) eqn:E; simpl; [exact IH | now rewrite E].
Qed.

Lemma blank_rstrip s : blank (rstrip s) = blank s.
Proof. unfold rstrip. now rewrite blank_rev, blank_lstrip, blank_rev. Qed.

(** [s.strip()] is empty exactly when [s] is all whitespace. *)
Lemma strip_truthy s : truthy (strip s) = negb (blank s).
Proof.
  unfold strip. destruct (blank s) eqn:E; simpl.
  - rewrite lstrip_blank; [reflexivity | now rewrite blank_rstrip].
  - destruct (lstrip (rstrip s)) eqn:L; [|reflexivity].
    apply lstrip_nil_blank in L. rewrite blank_rstrip in L. congruence.
Qed.

Lemma blank_concat (l : list str) :
  Forall (fun s => blank s = true) l -> blank (join l) = true.
Proof.
  unfold blank, join. induction 1 as [|s l Hs _ IH]; simpl; [reflexivity|].
  now rewrite forallb_app, Hs, IH.
Qed.

Lemma not_blank_witness s :
  blank s = false -> exists c, In c s /\ isspace c = false.
Proof.
  induction s as [|c s IH]; simpl; [discriminate|].
  destruct (isspace c) eqn:E; simpl.
  - intros H. destruct (IH H) as (c' & Hin & Hc'). eauto.
  - intros _. eauto.
Qed.

(** A line that starts a Python block is not a decorator line. *)
Lemma python_start_not_decorator line :
  is_start python_pattern line = true -> is_decorator line = false.
Proof.
  unfold is_start, is_decorator, matches, startswith.
  destruct (lstrip line) as [|c s]; [reflexivity|].
  destruct (N.eq_dec c 64) as [->|Hne]; [simpl; discriminate|].
  intros _. change (lit "@") with [64%N]. cbn [strip_prefix].
  destruct (N.eqb_spec 64 c); [congruence | reflexivity].
Qed.

(* ------------------------------------------------------------------ *)
(** ** Start indices *)

Lemma start_indices_from pat (lines : list str) k :
  map fst (filter (fun il => is_start pat (snd il))
             (combine (seq k (length lines)) lines))
  = filter (fun i => is_start pat (nth (i - k) lines [])) (seq k (length lines)).
Proof.
  revert k. induction lines as [|a l IH]; intros k; [reflexivity|].
  cbn [length seq combine filter snd]. rewrite Nat.sub_diag.
  change (nth 0 (a :: l) []) with a.
  assert (E : filter (fun i => is_start pat (nth (i - k) (a :: l) []))
                (seq (S k) (length l))
              = filter (fun i => is_start pat (nth (i - S k) l []))
                  (seq (S k) (length l))).
  { apply filter_ext_in. intros i Hi. apply in_seq in Hi.
    replace (i - k) with (S (i - S k)) by lia. reflexivity. }
  rewrite E, <- IH.
  destruct (is_start pat a); reflexivity.
Qed.

Lemma start_indices_filter pat lines :
  start_indices pat lines
  = filter (fun i => is_start pat (nth i lines [])) (seq 0 (length lines)).
Proof.
  unfold start_indices, enumerate. rewrite start_indices_from.
  apply filter_ext. intros i. now rewrite Nat.sub_0_r.
Qed.

Lemma start_indices_In pat lines i :
  In i (start_indices pat lines)
  <-> i < length lines /\ is_start pat (nth i lines []) = true.
Proof.
  rewrite start_indices_filter, filter_In, in_seq. intuition lia.
Qed.

Lemma seq_sorted k n : StronglySorted lt (seq k n).
Proof.
  revert k. induction n as [|n IH]; intros k; simpl; constructor.
  - apply IH.
  - apply Forall_forall. intros i Hi. apply in_seq in Hi. lia.
Qed.

Lemma filter_sorted {A} (R : A -> A -> Prop) f l :
  StronglySorted R l -> StronglySorted R (filter f l).
Proof.
  induction 1 as [|a l _ IH Ha]; simpl; [constructor|].
  destruct (f a); [|exact IH].
  constructor; [exact IH|].
  apply Forall_forall. intros x Hx. apply filter_In in Hx as [Hx _].
  rewrite Forall_forall in Ha. now apply Ha.
Qed.

Lemma start_indices_sorted pat lines :
  StronglySorted lt (start_indices pat lines).
Proof. rewrite start_indices_filter. apply filter_sorted, seq_sorted. Qed.

Lemma start_indices_bounded pat lines :
  Forall (fun i => i < length lines) (start_indices pat lines).
Proof.
  apply Forall_forall. intros i Hi. now apply start_indices_In in Hi.
Qed.

(* ------------------------------------------------------------------ *)
(** ** The decorator walk *)

Lemma index_Return_nth {A} (l : list A) i x (d : A) :
  index l i = Return x -> i < length l /\ nth i l d = x.
Proof.
  unfold index. destruct (nth_error l i) eqn:E; [|discriminate].
  intros H. injection H as ->. split.
  - apply nth_error_Some. congruence.
  - now apply nth_error_nth.
Qed.

Lemma walk_back_total lines start :
  start <= length lines -> exists s, walk_back lines start = Return s.
Proof.
  induction start as [|j IH]; simpl; intros H; [eauto|].
  rewrite (index_in_range lines j []) by lia. simpl.
  destruct (is_decorator (nth j lines [])); [apply IH; lia | eauto].
Qed.

(** The walk stops at [s]: the lines [s .. start-1] are decorator lines and
    the line above [s], when there is one, is not. *)
Lemma walk_back_spec lines start s :
  walk_back lines start = Return s ->
  s <= start
  /\ (forall k, s <= k < start -> is_decorator (nth k lines []) = true)
  /\ (forall j, s = S j -> is_decorator (nth j lines []) = false).
Proof.
  revert s. induction start as [|j IH]; simpl; intros s H.
  - injection H as <-. repeat split; intros; try lia; discriminate.
  - apply bind_Return_inv in H as (line & Hl & H).
    apply (index_Return_nth _ _ _ []) in Hl as [_ Hl]. subst line.
    cbv beta in H.
    match type of H with (if ?b then _ else _) = _ => destruct b eqn:E end.
    + destruct (IH _ H) as (Hle & Hrun & Hstop).
      repeat split; [lia | | exact Hstop].
      intros k Hk. destruct (Nat.eq_dec k j) as [->|]; [exact E|].
      apply Hrun. lia.
    + injection H as <-. repeat split; [lia | intros; lia |].
      intros j' Hj'. injection Hj' as <-. exact E.
Qed.

(** It never crosses a line that is not a decorator line. *)
Lemma walk_back_above lines start s j :
  walk_back lines start = Return s ->
  j < start -> is_decorator (nth j lines []) = false -> j < s.
Proof.
  intros H Hj Hd. destruct (walk_back_spec _ _ _ H) as (_ & Hrun & _).
  destruct (Nat.lt_ge_cases j s) as [|Hge]; [assumption|].
  rewrite Hrun in Hd by lia. discriminate.
Qed.

(* ------------------------------------------------------------------ *)
(** ** The ranges built from the start indices *)

Section BlockRanges.

Variable lines : list str.
Variable lang : string.

Lemma adjust_start_total x :
  x <= length lines -> exists s, adjust_start lines lang x = Return s.
Proof.
  unfold adjust_start. intros H.
  destruct (lang =? "python")%string; [now apply walk_back_total | eauto].
Qed.

Lemma adjust_start_le x s : adjust_start lines lang x = Return s -> s <= x.
Proof.
  unfold adjust_start. destruct (lang =? "python")%string; intros H.
  - now apply walk_back_spec in H.
  - injection H as <-. lia.
Qed.

(** The loop over [enumerate(indices)], started anywhere in the list. *)
Lemma mapM_block_range indices rest :
  forall pre,
    indices = pre ++ rest ->
    Forall (fun x => x < length lines) rest ->
    exists bs,
      mapM (block_range lines lang indices)
           (combine (seq (length pre) (length rest)) rest) = Return bs
      /\ block_ranges lines lang rest bs.
Proof.
  induction rest as [|x rest IH]; intros pre Hind Hb.
  - exists []. split; [reflexivity | constructor].
  - apply Forall_cons_iff in Hb as [Hx Hb].
    destruct (IH (pre ++ [x])) as (bs & Hbs & Hshape);
      [now rewrite <- app_assoc | exact Hb |].
    rewrite length_app in Hbs. cbn [length] in Hbs.
    rewrite Nat.add_1_r in Hbs.
    destruct (adjust_start_total x) as (s & Hs); [lia|].
    cbn [length seq combine mapM]. rewrite Hbs.
    unfold block_range at 1. rewrite Hs.
    destruct rest as [|y rest].
    + assert (L : (length pre + 1 <? length indices) = false).
      { apply Nat.ltb_ge. rewrite Hind, length_app. simpl. lia. }
      rewrite L. simpl. inversion Hshape; subst.
      eexists; split; [reflexivity | now constructor].
    + assert (L : (length pre + 1 <? length indices) = true).
      { apply Nat.ltb_lt. rewrite Hind, length_app. simpl. lia. }
      rewrite L.
      assert (I : index indices (length pre + 1) = Return y).
      { apply index_nth_error. rewrite Hind.
        rewrite nth_error_app2 by lia.
        replace (length pre + 1 - length pre) with 1 by lia. reflexivity. }
      rewrite I. simpl.
      eexists; split; [reflexivity | now constructor].
Qed.

(** Every range lies inside the file and is not reversed. *)
Lemma block_ranges_bounded rest bs :
  block_ranges lines lang rest bs ->
  StronglySorted lt rest ->
  Forall (fun x => x < length lines) rest ->
  Forall (fun b => fst b <= snd b /\ snd b <= length lines) bs.
Proof.
  induction 1 as [|x s Hs|x y rest s bs Hs _ IH]; intros Hsort Hb.
  - constructor.
  - apply adjust_start_le in Hs. apply Forall_cons_iff in Hb as [Hx _].
    constructor; [simpl; lia | constructor].
  - apply adjust_start_le in Hs.
    apply StronglySorted_inv in Hsort as [Hsort Hlt].
    apply Forall_cons_iff in Hlt as [Hxy _].
    apply Forall_cons_iff in Hb as [Hx Hb].
    pose proof Hb as Hb'. apply Forall_cons_iff in Hb' as [Hy _].
    constructor; [simpl; lia | now apply IH].
Qed.

(** Every start index owns a range: it begins at the adjusted start and
    runs past the index itself. *)
Lemma block_ranges_In rest bs x :
  block_ranges lines lang rest bs ->
  StronglySorted lt rest ->
  Forall (fun x => x < length lines) rest ->
  In x rest ->
  exists s e, In (s, e) bs /\ adjust_start lines lang x = Return s
              /\ x < e <= length lines.
Proof.
  induction 1 as [|x0 s Hs|x0 y rest s bs Hs _ IH]; intros Hsort Hb Hin.
  - destruct Hin.
  - destruct Hin as [<-|[]]. apply Forall_cons_iff in Hb as [Hx _].
    exists s, (length lines). simpl. auto with arith.
  - apply StronglySorted_inv in Hsort as [Hsort Hlt].
    apply Forall_cons_iff in Hlt as [Hxy _].
    apply Forall_cons_iff in Hb as [Hx Hb].
    pose proof Hb as Hb'. apply Forall_cons_iff in Hb' as [Hy _].
    destruct Hin as [<-|Hin].
    + exists s, y. simpl. repeat split; auto; lia.
    + destruct (IH Hsort Hb Hin) as (s' & e' & Hin' & Hs' & He').
      exists s', e'. simpl. auto.
Qed.

End BlockRanges.

Lemma insert_leading_In bs b : In b bs -> In b (insert_leading bs).
Proof.
  unfold insert_leading. destruct bs as [|[s e] bs]; [auto|].
  destruct (0 <? s); simpl; auto.
Qed.

Lemma insert_leading_bounded (len : nat) bs :
  Forall (fun b => fst b <= snd b /\ snd b <= len) bs ->
  Forall (fun b => fst b <= snd b /\ snd b <= len) (insert_leading bs).
Proof.
  unfold insert_leading. destruct bs as [|[s e] bs]; [auto|].
  destruct (0 <? s); [|auto].
  intros H. constructor; [|exact H].
  apply Forall_cons_iff in H as [[H1 H2] _]. simpl in *. lia.
Qed.

(** The heuristic path when some line starts a block. *)
Lemma find_code_block_boundaries_heuristic lines lang pat :
  pattern_of lang = Some pat ->
  start_indices pat lines <> [] ->
  exists bs,
    find_code_block_boundaries lines lang = Return (insert_leading bs)
    /\ block_ranges lines lang (start_indices pat lines) bs.
Proof.
  intros Hpat Hne. unfold find_code_block_boundaries. rewrite Hpat.
  destruct (mapM_block_range lines lang (start_indices pat lines)
              (start_indices pat lines) [] eq_refl
              (start_indices_bounded pat lines)) as (bs & Hbs & Hshape).
  exists bs. split; [|exact Hshape].
  destruct (start_indices pat lines) eqn:E; [congruence|].
  unfold enumerate. cbn [length] in Hbs |- *. rewrite Hbs. reflexivity.
Qed.

(* ------------------------------------------------------------------ *)
(** ** What a tiling gives *)

Lemma tiles_le a b rs : tiles a b rs -> a <= b.
Proof.
  revert a. induction rs as [|[s e] rs IH]; simpl; intros a H; [lia|].
  destruct H as (-> & Hle & H). apply IH in H. lia.
Qed.

(** Every line of [[a, b)] lies in some range, and every range lies in
    [[a, b)]. *)
Lemma tiles_cover a b rs :
  tiles a b rs ->
  forall k, a <= k < b <-> exists r, In r rs /\ in_range k r = true.
Proof.
  unfold in_range.
  revert a. induction rs as [|[s e] rs IH]; simpl; intros a H k.
  - subst. split; [lia | intros (r & [] & _)].
  - destruct H as (-> & Hle & H). pose proof (tiles_le _ _ _ H) as Heb.
    specialize (IH _ H k). split.
    + intros Hk. destruct (Nat.lt_ge_cases k e) as [Hlt|Hge].
      * exists (a, e). split; [now left|]. simpl.
        apply andb_true_iff. split; [apply Nat.leb_le | apply Nat.ltb_lt]; lia.
      * destruct (proj1 IH) as (r & Hin & Hr); [lia|]. eauto.
    + intros (r & [<-|Hin] & Hr).
      * simpl in Hr. apply andb_true_iff in Hr as [H1 H2].
        apply Nat.leb_le in H1. apply Nat.ltb_lt in H2. lia.
      * assert (e <= k < b) by (apply IH; eauto). lia.
Qed.

(** The starts ascend and no two ranges share a line. *)
Lemma tiles_apart a b rs :
  tiles a b rs ->
  forall i j r1 r2,
    i < j -> nth_error rs i = Some r1 -> nth_error rs j = Some r2 ->
    fst r1 <= fst r2 /\ overlap r1 r2 = false.
Proof.
  unfold overlap.
  revert a. induction rs as [|[s e] rs IH]; simpl; intros a H i j r1 r2 Hij H1 H2.
  - destruct i; discriminate.
  - destruct H as (-> & Hle & H).
    destruct j as [|j]; [lia|]. simpl in H2.
    destruct i as [|i]; simpl in H1.
    + injection H1 as <-. simpl.
      assert (Hr2 : e <= fst r2).
      { clear - H H2. revert e j H H2.
        induction rs as [|[s' e'] rs IH]; intros e j H H2.
        - destruct j; discriminate.
        - simpl in H. destruct H as (-> & Hle & H).
          destruct j as [|j]; simpl in H2.
          + injection H2 as <-. simpl. lia.
          + specialize (IH _ _ H H2). lia. }
      split; [lia | apply Nat.ltb_ge; lia].
    + apply (IH _ H i j); [lia | assumption | assumption].
Qed.

(* ------------------------------------------------------------------ *)
(** ** The fixed-size fallback *)

Lemma py_range_length n size :
  0 < size ->
  length (py_range 0 n size) = (n + size - 1) / size.
Proof.
  intros Hs. unfold py_range. rewrite length_map, length_seq.
  destruct (Nat.ltb_spec 0 n) as [Hn|Hn].
  - replace (n + size - 1) with ((n - 0 - 1) + 1 * size) by lia.
    rewrite Nat.div_add by lia. reflexivity.
  - replace (n + size - 1) with (size - 1) by lia.
    symmetry. apply Nat.div_small. lia.
Qed.

Section Fallback.

Variable n : nat.      (* [len(lines)] *)

Local Abbreviation window := (fun i : nat => (i, Nat.min (i + 200) n)).

Lemma fallback_nth k r :
  nth_error (map window (py_range 0 n 200)) k = Some r ->
  200 * k < n /\ r = (200 * k, Nat.min (200 * k + 200) n).
Proof.
  unfold py_range. set (len := if 0 <? n then _ else 0).
  rewrite !nth_error_map.
  destruct (nth_error (seq 0 len) k) as [i|] eqn:E; [|discriminate].
  simpl. intros H. injection H as <-.
  assert (Hlen : k < length (seq 0 len))
    by (apply nth_error_Some; congruence).
  rewrite length_seq in Hlen.
  apply (nth_error_nth _ _ 0) in E. rewrite seq_nth in E by exact Hlen.
  simpl in E. subst i. subst len.
  destruct (Nat.ltb_spec 0 n) as [Hn|Hn]; [|lia].
  pose proof (Nat.div_mod_eq (n - 0 - 1) 200) as D.
  pose proof (Nat.mod_upper_bound (n - 0 - 1) 200) as U.
  assert (Hk : 200 * k < n) by nia.
  split; [exact Hk|]. f_equal; lia.
Qed.

Lemma fallback_tiles_from m k :
  (m = 0 -> n = 200 * k) ->
  (0 < m -> 200 * (k + m - 1) < n <= 200 * (k + m)) ->
  tiles (200 * k) n
    (map window (map (fun i => 0 + i * 200) (seq k m))).
Proof.
  revert k. induction m as [|m IH]; intros k H0 H1; simpl.
  - symmetry. now apply H0.
  - specialize (H1 ltac:(lia)).
    split; [lia|]. split; [lia|].
    destruct m as [|m].
    + simpl. lia.
    + replace (Nat.min (k * 200 + 200) n) with (200 * S k) by lia.
      apply IH; intros; lia.
Qed.

Lemma fallback_tiles : tiles 0 n (map window (py_range 0 n 200)).
Proof.
  unfold py_range. change 0 with (200 * 0) at 1.
  apply fallback_tiles_from.
  - destruct (Nat.ltb_spec 0 n); lia.
  - destruct (Nat.ltb_spec 0 n) as [Hn|Hn]; [|lia]. intros _.
    pose proof (Nat.div_mod_eq (n - 0 - 1) 200) as D.
    pose proof (Nat.mod_upper_bound (n - 0 - 1) 200) as U.
    lia.
Qed.

End Fallback.

Lemma pattern_of_None lang :
  lang <> "python"%string -> lang <> "javascript"%string ->
  lang <> "typescript"%string -> pattern_of lang = None.
Proof.
  intros H1 H2 H3. unfold pattern_of.
  apply String.eqb_neq in H1, H2, H3. now rewrite H1, H2, H3.
Qed.

(* ------------------------------------------------------------------ *)
(** ** What the ranges of the heuristic path cover *)

Lemma covers_cover a b rs :
  covers a b rs ->
  forall k, a <= k < b -> exists r, In r rs /\ in_range k r = true.
Proof.
  unfold in_range.
  revert a. induction rs as [|[s e] rs IH]; simpl; intros a H k Hk; [lia|].
  destruct H as (Hs & He & H).
  destruct (Nat.lt_ge_cases k e) as [Hlt|Hge].
  - exists (s, e). split; [now left|]. simpl.
    apply andb_true_iff. split; [apply Nat.leb_le | apply Nat.ltb_lt]; lia.
  - destruct (IH _ H k) as (r & Hin & Hr); [lia|]. eauto.
Qed.

Lemma tiles_covers a b rs : tiles a b rs -> covers a b rs.
Proof.
  revert a. induction rs as [|[s e] rs IH]; simpl; intros a H; [exact H|].
  destruct H as (-> & Hle & H). auto.
Qed.

Section HeuristicRanges.

Variable lines : list str.
Variable lang : string.

(** Whatever the language, the ranges built from the indices leave no
    line out from the first index on. *)
Lemma block_ranges_covers rest bs :
  block_ranges lines lang rest bs ->
  StronglySorted lt rest ->
  Forall (fun x => x < length lines) rest ->
  match rest with
  | [] => bs = []
  | x :: _ => covers x (length lines) bs
  end.
Proof.
  induction 1 as [|x s Hs|x y rest s bs Hs _ IH]; intros Hsort Hb.
  - reflexivity.
  - apply adjust_start_le in Hs. apply Forall_cons_iff in Hb as [Hx _].
    simpl. lia.
  - apply adjust_start_le in Hs.
    apply StronglySorted_inv in Hsort as [Hsort Hlt].
    apply Forall_cons_iff in Hlt as [Hxy _].
    apply Forall_cons_iff in Hb as [Hx Hb].
    simpl. repeat split; try lia. now apply IH.
Qed.

(** An adjusted start stays below every earlier line that is not a
    decorator line. *)
Lemma adjust_start_above y s j :
  adjust_start lines lang y = Return s ->
  j < y -> is_decorator (nth j lines []) = false -> j < s.
Proof.
  unfold adjust_start. destruct (lang =? "python")%string; intros H Hj Hd.
  - now apply (walk_back_above lines y s j).
  - injection H as <-. exact Hj.
Qed.

(** So the starts ascend when no index is a decorator line. *)
Lemma block_ranges_ascending rest bs :
  block_ranges lines lang rest bs ->
  StronglySorted lt rest ->
  Forall (fun x => is_decorator (nth x lines []) = false) rest ->
  StronglySorted lt (map fst bs)
  /\ forall x0, Forall (lt x0) rest ->
       is_decorator (nth x0 lines []) = false -> Forall (lt x0) (map fst bs).
Proof.
  induction 1 as [|x s Hs|x y rest s bs Hs _ IH]; intros Hsort Hnd.
  - split; [constructor | intros; constructor].
  - split; [repeat constructor|].
    intros x0 Hx0 Hd. apply Forall_cons_iff in Hx0 as [Hx0 _].
    repeat constructor. simpl. now apply (adjust_start_above x s x0).
  - apply StronglySorted_inv in Hsort as [Hsort Hlt].
    apply Forall_cons_iff in Hnd as [Hdx Hnd].
    destruct (IH Hsort Hnd) as (Hs' & Habove).
    pose proof (adjust_start_le _ _ _ _ Hs) as Hle.
    split.
    + simpl. constructor; [exact Hs'|].
      eapply Forall_impl; [|apply (Habove x Hlt Hdx)]. simpl. intros; lia.
    + intros x0 Hx0 Hd. apply Forall_cons_iff in Hx0 as [Hx0 Hrest].
      simpl. constructor; [now apply (adjust_start_above x s x0)|].
      now apply Habove.
Qed.

(** Outside Python no start is moved, and the ranges are consecutive. *)
Lemma block_ranges_tiles rest bs :
  lang <> "python"%string ->
  block_ranges lines lang rest bs ->
  StronglySorted lt rest ->
  Forall (fun x => x < length lines) rest ->
  match rest with
  | [] => bs = []
  | x :: _ => tiles x (length lines) bs
  end.
Proof.
  intros Hlang. apply String.eqb_neq in Hlang.
  induction 1 as [|x s Hs|x y rest s bs Hs _ IH]; intros Hsort Hb;
    try (unfold adjust_start in Hs; rewrite Hlang in Hs; injection Hs as <-).
  - reflexivity.
  - apply Forall_cons_iff in Hb as [Hx _]. simpl. lia.
  - apply StronglySorted_inv in Hsort as [Hsort Hlt].
    apply Forall_cons_iff in Hlt as [Hxy _].
    apply Forall_cons_iff in Hb as [Hx Hb].
    simpl. repeat split; [lia|]. now apply IH.
Qed.

End HeuristicRanges.

Lemma insert_leading_covers x len bs :
  covers x len bs -> bs <> [] -> covers 0 len (insert_leading bs).
Proof.
  unfold insert_leading. destruct bs as [|[s e] bs]; [congruence|].
  simpl. intros (Hs & He & H) _.
  destruct (Nat.ltb_spec 0 s); simpl; repeat split; try lia; exact H.
Qed.

Lemma insert_leading_tiles x len bs :
  tiles x len bs -> bs <> [] -> tiles 0 len (insert_leading bs).
Proof.
  unfold insert_leading. destruct bs as [|[s e] bs]; [congruence|].
  simpl. intros (-> & He & H) _.
  destruct (Nat.ltb_spec 0 x); simpl; repeat split; try lia; exact H.
Qed.

(** The mapped list is as long as the indices, so it is not empty. *)
Lemma block_ranges_not_nil lines lang x rest bs :
  block_ranges lines lang (x :: rest) bs -> bs <> [].
Proof. inversion 1; discriminate. Qed.

(* ------------------------------------------------------------------ *)
(** ** The detector never fails *)

Lemma find_code_block_boundaries_total lines lang :
  exists bs,
    find_code_block_boundaries lines lang = Return bs
    /\ Forall (fun b => fst b <= snd b /\ snd b <= length lines) bs.
Proof.
  destruct (pattern_of lang) as [pat|] eqn:Hpat.
  - destruct (start_indices pat lines) eqn:E.
    + exists [(0, length lines)]. split.
      * unfold find_code_block_boundaries. now rewrite Hpat, E.
      * constructor; [simpl; lia | constructor].
    + destruct (find_code_block_boundaries_heuristic lines lang pat Hpat)
        as (bs & Hbs & Hshape); [congruence|].
      exists (insert_leading bs). split; [exact Hbs|].
      apply insert_leading_bounded.
      eapply block_ranges_bounded;
        eauto using start_indices_sorted, start_indices_bounded.
  - eexists. split.
    + unfold find_code_block_boundaries. rewrite Hpat. reflexivity.
    + apply Forall_forall. intros r Hin.
      apply In_nth_error in Hin as (k & Hk).
      apply fallback_nth in Hk as (Hlt & ->). simpl. lia.
Qed.

(* ------------------------------------------------------------------ *)
(** ** What holds of the ranges in every language, and what outside Python *)

Lemma js_start_not_decorator line :
  is_start js_pattern line = true -> is_decorator line = false.
Proof.
  unfold is_start, is_decorator, matches, startswith.
  destruct (lstrip line) as [|c s]; [reflexivity|].
  destruct (N.eq_dec c 64) as [->|Hne]; [simpl; discriminate|].
  intros _. change (lit "@") with [64%N]. cbn [strip_prefix].
  destruct (N.eqb_spec 64 c); [congruence | reflexivity].
Qed.

Lemma start_not_decorator lang pat line :
  pattern_of lang = Some pat ->
  is_start pat line = true -> is_decorator line = false.
Proof.
  unfold pattern_of. destruct (lang =? "python")%string.
  - intros E. injection E as <-. apply python_start_not_decorator.
  - destruct ((lang =? "javascript") || (lang =? "typescript"))%string;
      [|discriminate].
    intros E. injection E as <-. apply js_start_not_decorator.
Qed.

Lemma fallback_ascending n :
  StronglySorted lt
    (map fst (map (fun i => (i, Nat.min (i + 200) n)) (py_range 0 n 200))).
Proof.
  rewrite map_map. cbn [fst]. rewrite map_id. unfold py_range.
  generalize (if 0 <? n then (n - 0 - 1) / 200 + 1 else 0). intros len.
  assert (G : forall k,
             StronglySorted lt (map (fun i => 0 + i * 200) (seq k len))).
  { induction len as [|len IH]; intros k; cbn [seq map]; constructor.
    - apply IH.
    - apply Forall_forall. intros x Hx.
      apply in_map_iff in Hx as (i & <- & Hi). apply in_seq in Hi. lia. }
  apply G.
Qed.

(** In every language the ranges leave no line of the file out, and their
    starts ascend. *)
Lemma boundaries_cover_ascending (lines : list str) lang :
  exists bs,
    find_code_block_boundaries lines lang = Return bs
    /\ covers 0 (length lines) bs
    /\ StronglySorted lt (map fst bs).
Proof.
  destruct (pattern_of lang) as [pat|] eqn:Hpat.
  - destruct (start_indices pat lines) as [|x rest] eqn:E.
    + exists [(0, length lines)]. split; [|split].
      * unfold find_code_block_boundaries. now rewrite Hpat, E.
      * simpl. lia.
      * repeat constructor.
    + destruct (find_code_block_boundaries_heuristic lines lang pat Hpat)
        as (bs & Hbs & Hshape); [congruence|].
      pose proof (start_indices_sorted pat lines) as Hsort.
      pose proof (start_indices_bounded pat lines) as Hb.
      assert (Hnd : Forall (fun x => is_decorator (nth x lines []) = false)
                      (start_indices pat lines)).
      { apply Forall_forall. intros i Hi. apply start_indices_In in Hi as [_ Hi].
        now apply (start_not_decorator lang pat). }
      rewrite E in *.
      exists (insert_leading bs). split; [exact Hbs|]. split.
      * apply (insert_leading_covers x).
        -- now apply (block_ranges_covers lines lang (x :: rest)).
        -- now apply (block_ranges_not_nil lines lang x rest).
      * destruct (block_ranges_ascending lines lang _ _ Hshape Hsort Hnd)
          as (Hasc & _).
        unfold insert_leading. destruct bs as [|[s e] bs]; [constructor|].
        destruct (Nat.ltb_spec 0 s) as [Hpos|]; [|exact Hasc].
        simpl in *. constructor; [exact Hasc|].
        apply StronglySorted_inv in Hasc as [_ Hall].
        constructor; [exact Hpos|].
        eapply Forall_impl; [|exact Hall]. simpl. intros; lia.
  - eexists. split; [|split].
    + unfold find_code_block_boundaries. rewrite Hpat. reflexivity.
    + apply tiles_covers, fallback_tiles.
    + apply fallback_ascending.
Qed.

(** Outside Python they are consecutive: no gap and no overlap. *)
Lemma boundaries_tile_outside_python (lines : list str) lang :
  lang <> "python"%string ->
  exists bs,
    find_code_block_boundaries lines lang = Return bs
    /\ tiles 0 (length lines) bs.
Proof.
  intros Hlang. destruct (pattern_of lang) as [pat|] eqn:Hpat.
  - destruct (start_indices pat lines) as [|x rest] eqn:E.
    + exists [(0, length lines)]. split.
      * unfold find_code_block_boundaries. now rewrite Hpat, E.
      * simpl. lia.
    + destruct (find_code_block_boundaries_heuristic lines lang pat Hpat)
        as (bs & Hbs & Hshape); [congruence|].
      pose proof (start_indices_sorted pat lines) as Hsort.
      pose proof (start_indices_bounded pat lines) as Hb.
      rewrite E in *.
      exists (insert_leading bs). split; [exact Hbs|].
      apply (insert_leading_tiles x).
      * now apply (block_ranges_tiles lines lang (x :: rest)).
      * now apply (block_ranges_not_nil lines lang x rest).
  - eexists. split.
    + unfold find_code_block_boundaries. rewrite Hpat. reflexivity.
    + apply fallback_tiles.
Qed.

(* ------------------------------------------------------------------ *)
(** ** Slices *)

Lemma slice_prefix {A} (l : list A) (b : Z) :
  (Z.of_nat (length l) <= b)%Z -> slice l 0 b = l.
Proof.
  intros H. unfold slice, slice_bound.
  destruct (Z.ltb_spec b 0); [lia|]. simpl (0 <? 0)%Z. cbv iota.
  rewrite (Z.min_l 0) by lia. rewrite (Z.min_r b) by lia.
  rewrite Z.sub_0_r, Nat2Z.id. simpl. apply firstn_all.
Qed.

(** With [0 <= a <= b] the slice holds the items at the indices of
    [[a, b)] that exist. *)
Lemma slice_In {A} (l : list A) (a b : Z) (d x : A) :
  (0 <= a <= b)%Z -> In x (slice l a b) ->
  exists k, (a <= Z.of_nat k < b)%Z /\ k < length l /\ nth k l d = x.
Proof.
  intros Hab. unfold slice, slice_bound.
  destruct (Z.ltb_spec a 0); [lia|]. destruct (Z.ltb_spec b 0); [lia|].
  set (len := Z.of_nat (length l)).
  intros Hin. apply (In_nth _ _ d) in Hin as (k & Hk & Hx).
  rewrite length_firstn, length_skipn in Hk.
  rewrite nth_firstn in Hx.
  destruct (k <? Z.to_nat (Z.min b len - Z.min a len)) eqn:E;
    [|apply Nat.ltb_ge in E; lia].
  rewrite nth_skipn in Hx.
  exists (Z.to_nat (Z.min a len) + k). subst len. repeat split; try lia.
  exact Hx.
Qed.

(** The first item of a slice that starts inside the list. *)
Lemma slice_head {A} (l : list A) (a b : Z) (d : A) :
  (0 <= a < b)%Z -> (a < Z.of_nat (length l))%Z ->
  exists rest, slice l a b = nth (Z.to_nat a) l d :: rest.
Proof.
  intros Hab Hlen. unfold slice, slice_bound.
  destruct (Z.ltb_spec a 0); [lia|]. destruct (Z.ltb_spec b 0); [lia|].
  set (len := Z.of_nat (length l)) in *.
  rewrite (Z.min_l a) by lia.
  destruct (Z.to_nat (Z.min b len - a)) as [|m] eqn:E; [lia|].
  assert (Hs : Z.to_nat a < length l) by lia.
  destruct (skipn (Z.to_nat a) l) as [|x rest] eqn:S.
  - apply (f_equal (@length A)) in S. rewrite length_skipn in S.
    simpl in S. lia.
  - exists (firstn m rest). simpl. f_equal.
    rewrite <- (firstn_skipn (Z.to_nat a) l) at 1.
    rewrite app_nth2; rewrite length_firstn; [|lia].
    rewrite S. replace (Z.to_nat a - Nat.min (Z.to_nat a) (length l)) with 0 by lia.
    reflexivity.
Qed.

(* ------------------------------------------------------------------ *)
(** ** The window loop *)

Section AssemblerFacts.

Variable p : PathInfo.
Variable lang : string.
Variable lines : list str.
Variable chunk_max_lines : Z.

Local Abbreviation loop := (window_loop p lang lines chunk_max_lines).
Local Abbreviation chunk_end := (chunk_end_of chunk_max_lines).
Local Abbreviation emit := (emitted p lang lines).

Lemma window_loop_done fuel cur e docs :
  (e <= cur)%Z -> loop fuel cur e docs = Return docs.
Proof.
  intros H. destruct fuel; simpl;
    destruct (Z.ltb_spec cur e); try lia; reflexivity.
Qed.

Lemma window_loop_step fuel cur e docs :
  (cur < e)%Z ->
  loop (S fuel) cur e docs
  = loop fuel (chunk_end cur e) e (docs ++ emit (cur, chunk_end cur e)).
Proof.
  intros H. simpl. destruct (Z.ltb_spec cur e); [|lia].
  unfold emitted. cbn [fst snd].
  destruct (truthy (strip (content_of lines cur (chunk_end cur e)))); simpl.
  - reflexivity.
  - now rewrite app_nil_r.
Qed.

(** With a window of at least one line: when the loop ends, its windows
    have cut the range into consecutive pieces, each one ending where
    [min(cur + chunk_max_lines, end)] puts it. *)
Lemma window_loop_Return fuel : forall cur e docs docs',
  (1 <= chunk_max_lines)%Z -> (cur <= e)%Z ->
  loop fuel cur e docs = Return docs' ->
  exists ws,
    docs' = docs ++ flat_map emit ws
    /\ ztiles cur e ws
    /\ Forall (fun w => snd w = chunk_end (fst w) e) ws.
Proof.
  induction fuel as [|fuel IH]; intros cur e docs docs' Hmax Hle H.
  - simpl in H. destruct (Z.ltb_spec cur e); [discriminate|].
    injection H as <-. exists []. simpl. rewrite app_nil_r.
    repeat split; [lia | constructor].
  - destruct (Z.eq_dec cur e) as [->|Hne].
    + rewrite window_loop_done in H by lia. injection H as <-.
      exists []. simpl. rewrite app_nil_r. repeat split. constructor.
    + rewrite window_loop_step in H by lia.
      assert (Hce : (cur < chunk_end cur e <= e)%Z)
        by (unfold chunk_end_of; lia).
      apply IH in H as (ws & -> & Ht & Hf); [|lia|lia].
      exists ((cur, chunk_end cur e) :: ws). split; [|split].
      * simpl. now rewrite app_assoc.
      * simpl. repeat split; [lia | exact Ht].
      * constructor; [reflexivity | exact Hf].
Qed.

(** ... and it does end, after at most one pass per line of the range. *)
Lemma window_loop_total fuel : forall cur e docs,
  (1 <= chunk_max_lines)%Z ->
  Z.to_nat (e - cur) <= fuel ->
  exists docs', loop fuel cur e docs = Return docs'.
Proof.
  induction fuel as [|fuel IH]; intros cur e docs Hmax Hfuel.
  - exists docs. apply window_loop_done. lia.
  - destruct (Z.lt_ge_cases cur e) as [Hlt|Hge].
    + rewrite window_loop_step by lia.
      apply IH; [exact Hmax | unfold chunk_end_of; lia].
    + exists docs. now apply window_loop_done.
Qed.

(** Fuel only bounds the passes: more of it changes nothing. *)
Lemma window_loop_more_fuel fuel : forall fuel' cur e docs docs',
  fuel <= fuel' ->
  loop fuel cur e docs = Return docs' -> loop fuel' cur e docs = Return docs'.
Proof.
  induction fuel as [|fuel IH]; intros fuel' cur e docs docs' Hle H.
  - simpl in H. destruct (Z.ltb_spec cur e); [discriminate|].
    rewrite window_loop_done by lia. exact H.
  - destruct fuel' as [|fuel']; [lia|].
    destruct (Z.lt_ge_cases cur e) as [Hlt|Hge].
    + rewrite window_loop_step in H |- * by exact Hlt.
      apply (IH fuel'); [lia | exact H].
    + rewrite window_loop_done in H |- * by exact Hge. exact H.
Qed.

(** With a window of no lines, or of a negative number of lines, the
    loop never leaves a range that is not empty. *)
Lemma window_loop_stuck fuel : forall cur e docs,
  (chunk_max_lines <= 0)%Z -> (cur < e)%Z ->
  loop fuel cur e docs = OutOfFuel.
Proof.
  induction fuel as [|fuel IH]; intros cur e docs Hmax Hlt.
  - simpl. destruct (Z.ltb_spec cur e); [reflexivity | lia].
  - rewrite window_loop_step by exact Hlt.
    apply IH; [exact Hmax | unfold chunk_end_of; lia].
Qed.

(** *** The loop over the boundaries *)

Local Abbreviation boundaries_loop :=
  (for_boundaries p lang lines chunk_max_lines).

Lemma for_boundaries_Return fuel bs : forall docs docs',
  (1 <= chunk_max_lines)%Z ->
  Forall (fun b => fst b <= snd b) bs ->
  boundaries_loop fuel bs docs = Return docs' ->
  exists wss,
    docs' = docs ++ flat_map emit (concat wss)
    /\ Forall2 (windows_of chunk_max_lines) bs wss.
Proof.
  induction bs as [|[s e] bs IH]; intros docs docs' Hmax Hb H; simpl in H.
  - injection H as <-. exists []. simpl. rewrite app_nil_r. auto.
  - apply Forall_cons_iff in Hb as [Hse Hb]. simpl in Hse.
    apply bind_Return_inv in H as (docs1 & H1 & H).
    apply window_loop_Return in H1 as (ws & -> & Ht & Hf); [|lia|lia].
    apply IH in H as (wss & -> & Hwss); [|lia|exact Hb].
    exists (ws :: wss). split.
    + simpl. now rewrite flat_map_app, app_assoc.
    + constructor; [split; assumption | exact Hwss].
Qed.

Lemma for_boundaries_total fuel bs : forall docs,
  (1 <= chunk_max_lines)%Z ->
  Forall (fun b => snd b <= fuel) bs ->
  exists docs', boundaries_loop fuel bs docs = Return docs'.
Proof.
  induction bs as [|[s e] bs IH]; intros docs Hmax Hb; simpl.
  - eauto.
  - apply Forall_cons_iff in Hb as [He Hb]. simpl in He.
    destruct (window_loop_total fuel (Z.of_nat s) (Z.of_nat e) docs)
      as (docs1 & ->); [lia | lia |].
    simpl. now apply IH.
Qed.

Lemma for_boundaries_more_fuel fuel fuel' bs : forall docs docs',
  fuel <= fuel' ->
  boundaries_loop fuel bs docs = Return docs' ->
  boundaries_loop fuel' bs docs = Return docs'.
Proof.
  induction bs as [|[s e] bs IH]; intros docs docs' Hle H; simpl in H |- *.
  - exact H.
  - apply bind_Return_inv in H as (docs1 & H1 & H).
    rewrite (window_loop_more_fuel fuel fuel' _ _ _ _ Hle H1). simpl.
    now apply IH.
Qed.

(** Without a proper window size the loop over the boundaries ends only
    when every range is empty, and then nothing was appended. *)
Lemma for_boundaries_stuck fuel bs : forall docs docs',
  (chunk_max_lines <= 0)%Z ->
  boundaries_loop fuel bs docs = Return docs' ->
  docs' = docs /\ Forall (fun b => snd b <= fst b) bs.
Proof.
  induction bs as [|[s e] bs IH]; intros docs docs' Hmax H; simpl in H.
  - injection H as <-. auto.
  - apply bind_Return_inv in H as (docs1 & H1 & H).
    destruct (Z.lt_ge_cases (Z.of_nat s) (Z.of_nat e)) as [Hlt|Hge].
    + rewrite window_loop_stuck in H1 by assumption. discriminate.
    + rewrite window_loop_done in H1 by exact Hge. injection H1 as <-.
      apply IH in H as [-> Hbs]; [|exact Hmax].
      split; [reflexivity|]. constructor; [simpl; lia | exact Hbs].
Qed.

End AssemblerFacts.

(* ------------------------------------------------------------------ *)
(** ** Chunk production as a whole *)

Lemma ztiles_In a b ws w :
  ztiles a b ws -> In w ws -> (a <= fst w < snd w /\ snd w <= b)%Z.
Proof.
  assert (Hle : forall ws a, ztiles a b ws -> (a <= b)%Z).
  { clear. induction ws as [|[s e] ws IH]; simpl; intros a H; [lia|].
    destruct H as (-> & Hlt & H). apply IH in H. lia. }
  revert a. induction ws as [|[s e] ws IH]; simpl; intros a H Hin; [easy|].
  destruct H as (-> & Hlt & H). destruct Hin as [<-|Hin].
  - simpl. apply Hle in H. lia.
  - specialize (IH _ H Hin). lia.
Qed.

Lemma Forall2_In_r {A B} (R : A -> B -> Prop) l l' y :
  Forall2 R l l' -> In y l' -> exists x, In x l /\ R x y.
Proof.
  induction 1 as [|x y' l l' HR _ IH]; simpl; [easy|].
  intros [<-|Hin]; [eauto|]. destruct (IH Hin) as (x' & Hx' & HR'). eauto.
Qed.

Lemma emitted_In p lang lines w d :
  In d (emitted p lang lines w) ->
  d = make_document p lang (fst w) (snd w) (content_of lines (fst w) (snd w))
  /\ truthy (strip (page_content d)) = true.
Proof.
  unfold emitted. cbv zeta.
  destruct (truthy (strip (content_of lines (fst w) (snd w)))) eqn:E;
    simpl; [|easy].
  intros [<-|[]]. split; [reflexivity | exact E].
Qed.

Section Production.

Variable p : PathInfo.
Variable lang : string.
Variable lines : list str.
Variable chunk_max_lines : Z.

Local Abbreviation produce := (produce_chunks p lang lines chunk_max_lines).

(** Chunk production ends when [chunk_max_lines >= 1]. *)
Lemma produce_chunks_total fuel :
  (1 <= chunk_max_lines)%Z -> length lines <= fuel ->
  exists docs, produce fuel = Return docs.
Proof.
  intros Hmax Hfuel. unfold produce_chunks.
  destruct (find_code_block_boundaries_total lines lang) as (bs & -> & Hb).
  simpl. apply for_boundaries_total; [exact Hmax|].
  eapply Forall_impl; [|exact Hb]. simpl. intros b [_ H]. lia.
Qed.

(** Its chunks are those of the windows of the boundary ranges. *)
Lemma produce_chunks_windows fuel docs :
  (1 <= chunk_max_lines)%Z ->
  produce fuel = Return docs ->
  exists bs wss,
    find_code_block_boundaries lines lang = Return bs
    /\ docs = flat_map (emitted p lang lines) (concat wss)
    /\ Forall2 (windows_of chunk_max_lines) bs wss.
Proof.
  intros Hmax H. unfold produce_chunks in H.
  destruct (find_code_block_boundaries_total lines lang) as (bs & Hbs & Hb).
  rewrite Hbs in H. simpl in H.
  apply for_boundaries_Return in H as (wss & -> & Hwss); [|exact Hmax|].
  - exists bs, wss. auto.
  - eapply Forall_impl; [|exact Hb]. simpl. tauto.
Qed.

(** Every chunk that comes out was made from a window [[cur, chunk_end)]
    of some boundary range, and the window size was a proper one. *)
Lemma produce_chunks_In fuel docs d :
  produce fuel = Return docs -> In d docs ->
  (1 <= chunk_max_lines)%Z
  /\ exists bs s e cur,
      find_code_block_boundaries lines lang = Return bs
      /\ In (s, e) bs
      /\ (Z.of_nat s <= cur < Z.of_nat e)%Z
      /\ d = make_document p lang cur
               (chunk_end_of chunk_max_lines cur (Z.of_nat e))
               (content_of lines cur
                  (chunk_end_of chunk_max_lines cur (Z.of_nat e)))
      /\ truthy (strip (page_content d)) = true.
Proof.
  intros H Hd.
  destruct (Z.le_gt_cases chunk_max_lines 0) as [Hmax|Hmax].
  - unfold produce_chunks in H.
    apply bind_Return_inv in H as (bs & _ & H).
    apply for_boundaries_stuck in H as [-> _]; [destruct Hd | exact Hmax].
  - split; [lia|].
    apply produce_chunks_windows in H as (bs & wss & Hbs & -> & Hwss); [|lia].
    apply in_flat_map in Hd as (w & Hw & Hd).
    apply in_concat in Hw as (ws & Hws & Hw).
    destruct (Forall2_In_r _ _ _ _ Hwss Hws) as ([s e] & Hb & Ht & Hf).
    simpl in Ht, Hf.
    pose proof (ztiles_In _ _ _ _ Ht Hw) as Hrange.
    rewrite Forall_forall in Hf. specialize (Hf _ Hw).
    apply emitted_In in Hd as [Hd Hne].
    exists bs, s, e, (fst w). rewrite <- Hf.
    repeat split; try assumption; lia.
Qed.

End Production.

(* ------------------------------------------------------------------ *)
(** ** Blank windows *)

Section BlankWindows.

Variable p : PathInfo.
Variable lang : string.
Variable lines : list str.
Variable chunk_max_lines : Z.

Local Abbreviation loop := (window_loop p lang lines chunk_max_lines).
Local Abbreviation chunk_end := (chunk_end_of chunk_max_lines).

(** The pass over a window of blank lines appends nothing. *)
Lemma emitted_blank w :
  Forall (fun line => blank line = true) (slice lines (fst w) (snd w)) ->
  emitted p lang lines w = [].
Proof.
  intros H. unfold emitted, content_of. cbv zeta.
  rewrite strip_truthy, blank_rstrip, blank_concat by exact H.
  reflexivity.
Qed.

(** The windows of a range of blank lines are blank. *)
Lemma blank_range_window (s e : nat) cur :
  (forall k, s <= k < e -> blank (nth k lines []) = true) ->
  (1 <= chunk_max_lines)%Z -> (Z.of_nat s <= cur < Z.of_nat e)%Z ->
  Forall (fun line => blank line = true)
    (slice lines cur (chunk_end cur (Z.of_nat e))).
Proof.
  intros Hblank Hmax Hcur. apply Forall_forall. intros line Hin.
  apply (slice_In _ _ _ [] _) in Hin as (k & Hk & _ & <-);
    [|unfold chunk_end_of; lia].
  apply Hblank. unfold chunk_end_of in Hk. lia.
Qed.

(** The loop over a range of blank lines, from any position in it: when it
    ends, it has appended nothing. *)
Lemma window_loop_blank_range (s e : nat) fuel : forall cur docs docs',
  (forall k, s <= k < e -> blank (nth k lines []) = true) ->
  (Z.of_nat s <= cur)%Z ->
  loop fuel cur (Z.of_nat e) docs = Return docs' -> docs' = docs.
Proof.
  intros cur docs docs' Hblank.
  destruct (Z.le_gt_cases chunk_max_lines 0) as [Hmax|Hmax].
  - (* no proper window: the loop can only have ended at once *)
    intros _ H. destruct (Z.lt_ge_cases cur (Z.of_nat e)) as [Hlt|Hge].
    + rewrite window_loop_stuck in H by assumption. discriminate.
    + rewrite window_loop_done in H by exact Hge. congruence.
  - revert cur. induction fuel as [|fuel IH]; intros cur Hs H.
    + simpl in H. destruct (cur <? Z.of_nat e)%Z; congruence.
    + destruct (Z.lt_ge_cases cur (Z.of_nat e)) as [Hlt|Hge].
      * rewrite window_loop_step in H by exact Hlt.
        rewrite emitted_blank, app_nil_r in H
          by (apply (blank_range_window s); [assumption | lia | simpl; lia]).
        apply IH in H; [exact H | unfold chunk_end_of; lia].
      * rewrite window_loop_done in H by exact Hge. congruence.
Qed.

End BlankWindows.

(* ------------------------------------------------------------------ *)
(** ** Files without a block start *)

Lemma no_start_indices pat lines :
  (forall line, In line lines -> is_start pat line = false) ->
  start_indices pat lines = [].
Proof.
  intros H. destruct (start_indices pat lines) as [|i l] eqn:E; [reflexivity|].
  assert (Hi : In i (start_indices pat lines)) by (rewrite E; now left).
  apply start_indices_In in Hi as [Hlt Hi].
  rewrite H in Hi by (now apply nth_In). discriminate.
Qed.

Lemma pattern_of_heuristic lang :
  In lang ["python"; "javascript"; "typescript"]%string ->
  exists pat, pattern_of lang = Some pat.
Proof.
  intros [E|[E|[E|[]]]]; subst lang; eexists; reflexivity.
Qed.

(** The chunk of a window whose text is not blank. *)
Lemma emitted_not_blank p lang lines w :
  blank (join (slice lines (fst w) (snd w))) = false ->
  emitted p lang lines w
  = [make_document p lang (fst w) (snd w) (content_of lines (fst w) (snd w))].
Proof.
  intros H. unfold emitted, content_of. cbv zeta.
  now rewrite strip_truthy, blank_rstrip, H.
Qed.

(** The type of a chunk is read off the language tag alone. *)
Lemma chunk_type_of_language p lang lines chunk_max_lines fuel docs d :
  produce_chunks p lang lines chunk_max_lines fuel = Return docs ->
  In d docs ->
  language (metadata d) = lang
  /\ chunk_type (metadata d)
     = if existsb (String.eqb lang)
            ["markdown"; "text"; "json"; "toml"; "yaml"]%string
       then "prose"%string else "code"%string.
Proof.
  intros H Hd.
  destruct (produce_chunks_In _ _ _ _ _ _ _ H Hd)
    as (_ & bs & s & e & cur & _ & _ & _ & -> & _).
  cbn [make_document metadata language chunk_type].
  split; [reflexivity|]. unfold not_in_prose_tags.
  destruct (existsb _ _); reflexivity.
Qed.

(* ------------------------------------------------------------------ *)
(** ** The first chunk of a range *)

Lemma blank_app a b : blank (a ++ b) = blank a && blank b.
Proof. unfold blank. apply forallb_app. Qed.

Lemma lstrip_not_nil_not_blank line : lstrip line <> [] -> blank line = false.
Proof.
  intros H. destruct (blank line) eqn:E; [|reflexivity].
  apply lstrip_blank in E. contradiction.
Qed.

Lemma decorator_not_blank line : is_decorator line = true -> blank line = false.
Proof.
  unfold is_decorator. intros H. apply lstrip_not_nil_not_blank.
  intros E. rewrite E in H. discriminate.
Qed.

Lemma python_start_not_blank line :
  is_start python_pattern line = true -> blank line = false.
Proof.
  unfold is_start. intros H. apply lstrip_not_nil_not_blank.
  intros E. rewrite E in H. discriminate.
Qed.

Lemma Forall2_In_l {A B} (R : A -> B -> Prop) l l' x :
  Forall2 R l l' -> In x l -> exists y, In y l' /\ R x y.
Proof.
  induction 1 as [|x' y l l' HR _ IH]; simpl; [easy|].
  intros [<-|Hin]; [eauto|]. destruct (IH Hin) as (y' & Hy' & HR'). eauto.
Qed.

(** When the first line of a range is not blank, the first window of the
    range yields a chunk, and the chunk starts at that line. *)
Lemma first_window_chunk p lang (lines : list str) chunk_max_lines
    (s e : nat) ws :
  (1 <= chunk_max_lines)%Z -> s < e -> s < length lines ->
  blank (nth s lines []) = false ->
  windows_of chunk_max_lines (s, e) ws ->
  exists w d,
    In w ws /\ In d (emitted p lang lines w)
    /\ line_start (metadata d) = (Z.of_nat s + 1)%Z.
Proof.
  intros Hmax Hse Hlen Hline [Ht Hf]. simpl in Ht, Hf.
  destruct ws as [|[c ce] ws]; simpl in Ht; [lia|].
  destruct Ht as (-> & Hlt & _).
  apply Forall_cons_iff in Hf as [Hce _]. simpl in Hce.
  exists (Z.of_nat s, ce). eexists. split; [now left|].
  rewrite emitted_not_blank.
  - split; [now left | reflexivity].
  - cbn [fst snd].
    destruct (slice_head (A := str) lines (Z.of_nat s) ce [])
      as (rest & ->); [lia|lia|].
    rewrite Nat2Z.id. unfold join. simpl concat.
    now rewrite blank_app, Hline.
Qed.

(* ================================================================== *)
(** * The claims *)

(* ------------------------------------------------------------------ *)
(** C1 at a Python file whose second definition has a decorator: the
    range of [f] runs up to the [def g] line and the range of [g] starts
    at its decorator, so line 2 ([@deco]) lies in both, and is cited by
    both chunks. *)
Theorem decorator_line_in_two_ranges :
  find_code_block_boundaries two_defs "python" = Return [(0, 3); (2, 5)]
  /\ overlap (0, 3) (2, 5) = true
  /\ in_range 2 (0, 3) = true /\ in_range 2 (2, 5) = true
  /\ exists docs,
      produce_chunks mod_py "python" two_defs 400 5 = Return docs
      /\ cited docs = [(1, 3); (3, 5)]%Z.
Proof.
  repeat split; try reflexivity.
  eexists. split; vm_compute; reflexivity.
Qed.

(* ------------------------------------------------------------------ *)
(** C2: in a Python file, the range of a line [i] that starts a block
    begins at the top of the unbroken run of decorator lines directly above
    [i]: every line between the start [s] of the range and [i] is a
    decorator line, and the line above [s], when there is one, is not.  So
    a decorator line directly above [i] puts [s] at or above it.  The
    chunks follow: some chunk starts at line [s] (1-based: [s + 1]). *)
Theorem decorators_attached (lines : list str) i :
  i < length lines ->
  is_start python_pattern (nth i lines []) = true ->
  exists bs s e,
    find_code_block_boundaries lines "python" = Return bs
    /\ In (s, e) bs
    /\ s <= i < e /\ e <= length lines
    /\ (forall k, s <= k < i -> is_decorator (nth k lines []) = true)
    /\ (forall j, s = S j -> is_decorator (nth j lines []) = false)
    /\ (forall j, i = S j -> is_decorator (nth j lines []) = true -> s <= j)
    /\ (forall p chunk_max_lines fuel,
          (1 <= chunk_max_lines)%Z -> length lines <= fuel ->
          exists docs d,
            produce_chunks p "python" lines chunk_max_lines fuel = Return docs
            /\ In d docs
            /\ line_start (metadata d) = (Z.of_nat s + 1)%Z).
Proof.
  intros Hi Hstart.
  assert (Hin : In i (start_indices python_pattern lines))
    by (apply start_indices_In; auto).
  destruct (find_code_block_boundaries_heuristic lines "python" python_pattern
              eq_refl) as (bs & Hbs & Hshape).
  { intros E. rewrite E in Hin. destruct Hin. }
  destruct (block_ranges_In lines "python" _ _ i Hshape
              (start_indices_sorted _ _) (start_indices_bounded _ _) Hin)
    as (s & e & Hse & Hs & He).
  change (adjust_start lines "python" i) with (walk_back lines i) in Hs.
  destruct (walk_back_spec _ _ _ Hs) as (Hle & Hrun & Hstop).
  exists (insert_leading bs), s, e.
  split; [exact Hbs|]. split; [now apply insert_leading_In|].
  split; [lia|]. split; [lia|]. split; [exact Hrun|]. split; [exact Hstop|].
  split.
  - intros j -> Hdec. destruct (Nat.eq_dec s (S j)) as [E|]; [|lia].
    rewrite (Hstop j E) in Hdec. discriminate.
  - intros p chunk_max_lines fuel Hmax Hfuel.
    destruct (produce_chunks_total p "python" lines chunk_max_lines fuel
                Hmax Hfuel) as (docs & Hdocs).
    destruct (produce_chunks_windows _ _ _ _ _ _ Hmax Hdocs)
      as (bs' & wss & Hbs' & -> & Hwss).
    assert (bs' = insert_leading bs) by congruence. subst bs'.
    destruct (Forall2_In_l _ _ _ _ Hwss (insert_leading_In _ _ Hse))
      as (ws & Hws & Hwin).
    assert (Hline : blank (nth s lines []) = false).
    { destruct (Nat.eq_dec s i) as [->|Hne].
      - now apply python_start_not_blank.
      - apply decorator_not_blank, Hrun. lia. }
    destruct (first_window_chunk p "python" lines chunk_max_lines s e ws)
      as (w & d & Hw & Hd & Hls); try assumption; try lia.
    exists (flat_map (emitted p "python" lines) (concat wss)), d.
    split; [exact Hdocs|]. split; [|exact Hls].
    apply in_flat_map. exists w. split; [|exact Hd].
    apply in_concat. eauto.
Qed.

Lemma decorators_attached_witness :
  1 < length deco_file
  /\ is_start python_pattern (nth 1 deco_file []) = true
  /\ find_code_block_boundaries deco_file "python" = Return [(0, 3)]
  /\ exists bs s e,
      find_code_block_boundaries deco_file "python" = Return bs
      /\ In (s, e) bs
      /\ s <= 1 < e /\ e <= length deco_file
      /\ (forall k, s <= k < 1 -> is_decorator (nth k deco_file []) = true)
      /\ (forall j, s = S j -> is_decorator (nth j deco_file []) = false)
      /\ (forall j, 1 = S j -> is_decorator (nth j deco_file []) = true -> s <= j)
      /\ (forall p chunk_max_lines fuel,
            (1 <= chunk_max_lines)%Z -> length deco_file <= fuel ->
            exists docs d,
              produce_chunks p "python" deco_file chunk_max_lines fuel
              = Return docs
              /\ In d docs
              /\ line_start (metadata d) = (Z.of_nat s + 1)%Z).
Proof.
  split; [simpl; lia|]. split; [reflexivity|]. split; [reflexivity|].
  apply (decorators_attached deco_file 1); [simpl; lia | reflexivity].
Defined.

(* ------------------------------------------------------------------ *)
(** C3 at a configuration file: [.cfg] and [.ini] map to the tag [ini],
    which the tuple of prose tags does not list, so the chunks of such a
    file are typed [code], while those of a [.toml] file are typed
    [prose]. *)
Theorem ini_chunks_typed_code :
  detect_language_from_path setup_cfg = "ini"%string
  /\ (exists d,
        create_documents_from_file setup_cfg cfg_lines 400 2 = Return [d]
        /\ language (metadata d) = "ini"%string
        /\ chunk_type (metadata d) = "code"%string)
  /\ (exists d,
        create_documents_from_file pyproject_toml cfg_lines 400 2 = Return [d]
        /\ language (metadata d) = "toml"%string
        /\ chunk_type (metadata d) = "prose"%string).
Proof.
  split; [reflexivity|].
  split; eexists; (split; [vm_compute; reflexivity|]); split; reflexivity.
Qed.

(* ------------------------------------------------------------------ *)
(** C4: for a language outside the two heuristic families the ranges are
    the windows [[200k, min(200k + 200, n))] for [k < ceil(n / 200)], in
    this order: they cut [[0, n)] into consecutive pieces of exactly 200
    lines, the last one possibly shorter but never empty, whatever the
    lines hold. *)
Theorem fallback_fixed_windows lines lang :
  lang <> "python"%string -> lang <> "javascript"%string ->
  lang <> "typescript"%string ->
  exists bs,
    find_code_block_boundaries lines lang = Return bs
    /\ tiles 0 (length lines) bs
    /\ length bs = (length lines + 199) / 200
    /\ (forall k s e, nth_error bs k = Some (s, e) ->
          s = 200 * k /\ e = Nat.min (s + 200) (length lines)
          /\ s < e /\ (S k < length bs -> e - s = 200))
    /\ (forall lines' : list str, length lines' = length lines ->
          find_code_block_boundaries lines' lang = Return bs).
Proof.
  intros H1 H2 H3. pose proof (pattern_of_None lang H1 H2 H3) as Hpat.
  unfold find_code_block_boundaries. rewrite Hpat. cbv zeta.
  eexists. split; [reflexivity|]. split; [|split; [|split]].
  - apply fallback_tiles.
  - rewrite length_map, py_range_length by lia. f_equal. lia.
  - intros k s e Hk.
    pose proof (fallback_nth _ _ _ Hk) as (Hlt & E).
    injection E as -> ->. repeat split; try lia.
    intros Hnext. apply nth_error_Some in Hnext.
    destruct (nth_error _ (S k)) as [r|] eqn:Er; [|congruence].
    apply fallback_nth in Er as (Hlt' & _). lia.
  - intros lines' Hlen. now rewrite Hlen.
Qed.

Lemma fallback_fixed_windows_witness :
  "markdown"%string <> "python"%string
  /\ "markdown"%string <> "javascript"%string
  /\ "markdown"%string <> "typescript"%string
  /\ exists bs,
      find_code_block_boundaries (repeat (nl "text") 450) "markdown" = Return bs
      /\ bs = [(0, 200); (200, 400); (400, 450)]
      /\ tiles 0 (length (repeat (nl "text") 450)) bs
      /\ length bs = (length (repeat (nl "text") 450) + 199) / 200
      /\ (forall k s e, nth_error bs k = Some (s, e) ->
            s = 200 * k /\ e = Nat.min (s + 200) (length (repeat (nl "text") 450))
            /\ s < e /\ (S k < length bs -> e - s = 200))
      /\ (forall lines' : list str,
            length lines' = length (repeat (nl "text") 450) ->
            find_code_block_boundaries lines' "markdown" = Return bs).
Proof.
  assert (N1 : "markdown"%string <> "python"%string) by discriminate.
  assert (N2 : "markdown"%string <> "javascript"%string) by discriminate.
  assert (N3 : "markdown"%string <> "typescript"%string) by discriminate.
  repeat (split; [assumption|]).
  destruct (fallback_fixed_windows (repeat (nl "text") 450) "markdown" N1 N2 N3)
    as (bs & Hbs & Hrest).
  exists bs. split; [exact Hbs|]. split; [|exact Hrest].
  vm_compute in Hbs. injection Hbs as <-. reflexivity.
Defined.

(* ------------------------------------------------------------------ *)
(** C5, as the code has it: for python, javascript and typescript, when
    no line starts a block the detector returns the one range
    [[0, len(lines))]; chunk production then yields exactly one chunk, for
    the whole file, when the file is not blank and has at most
    [chunk_max_lines] lines. *)
Theorem no_definitions_one_boundary p lang lines chunk_max_lines :
  In lang ["python"; "javascript"; "typescript"]%string ->
  (forall pat line,
      pattern_of lang = Some pat -> In line lines -> is_start pat line = false) ->
  find_code_block_boundaries lines lang = Return [(0, length lines)]
  /\ (blank (join lines) = false ->
      (Z.of_nat (length lines) <= chunk_max_lines)%Z ->
      forall fuel, 1 <= fuel ->
      exists d,
        produce_chunks p lang lines chunk_max_lines fuel = Return [d]
        /\ line_start (metadata d) = 1%Z
        /\ line_end (metadata d) = Z.of_nat (length lines)
        /\ page_content d = rstrip (join lines)).
Proof.
  intros Hlang Hnone.
  destruct (pattern_of_heuristic lang Hlang) as (pat & Hpat).
  assert (Hbs : find_code_block_boundaries lines lang
                = Return [(0, length lines)]).
  { unfold find_code_block_boundaries. rewrite Hpat.
    rewrite no_start_indices; [reflexivity|]. intros line. now apply Hnone. }
  split; [exact Hbs|].
  intros Hblank Hmax fuel Hfuel.
  assert (Hlen : 0 < length lines) by (destruct lines; [discriminate | simpl; lia]).
  destruct fuel as [|fuel]; [lia|].
  unfold produce_chunks. rewrite Hbs. cbn [bind for_boundaries].
  rewrite window_loop_step by lia.
  assert (Hce : chunk_end_of chunk_max_lines (Z.of_nat 0)
                  (Z.of_nat (length lines)) = Z.of_nat (length lines))
    by (unfold chunk_end_of; lia).
  rewrite Hce. rewrite window_loop_done by lia.
  assert (Hslice : slice lines (Z.of_nat 0) (Z.of_nat (length lines)) = lines)
    by (apply slice_prefix; lia).
  rewrite emitted_not_blank by (cbn [fst snd]; now rewrite Hslice).
  eexists. split; [reflexivity|]. unfold content_of. cbn [fst snd].
  rewrite Hslice. simpl. auto.
Qed.

Lemma no_definitions_one_boundary_witness :
  In "python"%string ["python"; "javascript"; "typescript"]%string
  /\ (forall pat line,
        pattern_of "python" = Some pat -> In line one_line ->
        is_start pat line = false)
  /\ find_code_block_boundaries one_line "python" = Return [(0, 1)]
  /\ exists d,
      produce_chunks mod_py "python" one_line 400 1 = Return [d]
      /\ line_start (metadata d) = 1%Z
      /\ line_end (metadata d) = 1%Z
      /\ page_content d = rstrip (join one_line).
Proof.
  assert (Hlang : In "python"%string ["python"; "javascript"; "typescript"]%string)
    by (now left).
  assert (Hnone : forall pat line,
             pattern_of "python" = Some pat -> In line one_line ->
             is_start pat line = false).
  { intros pat line Hpat [<-|[]]. injection Hpat as <-. reflexivity. }
  destruct (no_definitions_one_boundary mod_py "python" one_line 400 Hlang Hnone)
    as (Hbs & Hchunk).
  split; [exact Hlang|]. split; [exact Hnone|]. split; [exact Hbs|].
  apply Hchunk; [reflexivity | simpl; lia | lia].
Defined.

(** C5, as stated, fails where it speaks of the chunks: a Python file that
    is one empty line has no block start and yields no chunk, and a script
    of 401 statements has none either and yields two chunks with the
    default [chunk_max_lines = 400]. *)
Lemma no_definitions_zero_or_two_chunks :
  start_indices python_pattern [nl ""] = []
  /\ produce_chunks mod_py "python" [nl ""] 400 1 = Return []
  /\ start_indices python_pattern long_script = []
  /\ exists docs,
      produce_chunks mod_py "python" long_script 400 401 = Return docs
      /\ cited docs = [(1, 400); (401, 401)]%Z.
Proof.
  split; [reflexivity|]. split; [reflexivity|].
  split; [vm_compute; reflexivity|].
  eexists. split; vm_compute; reflexivity.
Qed.

(* ------------------------------------------------------------------ *)
(** C6, as the code has it: whatever [chunk_max_lines] is, every chunk
    that is emitted covers at most [chunk_max_lines] lines,
    [line_end - line_start + 1 <= chunk_max_lines]; and with
    [chunk_max_lines >= 1] chunk production returns the chunks of the
    windows of the boundary ranges, in order, where the windows of a range
    start at its start, each one begins where the one before it ends, the
    last one ends at the end of the range, and each has between one and
    [chunk_max_lines] lines. *)
Theorem chunk_size_bound p lang lines chunk_max_lines :
  (forall fuel docs d,
      produce_chunks p lang lines chunk_max_lines fuel = Return docs ->
      In d docs ->
      (covered_lines d <= chunk_max_lines)%Z)
  /\ ((1 <= chunk_max_lines)%Z ->
      forall fuel, length lines <= fuel ->
      exists bs wss docs,
        find_code_block_boundaries lines lang = Return bs
        /\ produce_chunks p lang lines chunk_max_lines fuel = Return docs
        /\ docs = flat_map (emitted p lang lines) (concat wss)
        /\ Forall2 (fun b ws =>
                      ztiles (Z.of_nat (fst b)) (Z.of_nat (snd b)) ws
                      /\ Forall (fun w =>
                                   (0 < snd w - fst w <= chunk_max_lines)%Z)
                           ws) bs wss).
Proof.
  split.
  - intros fuel docs d Hdocs Hd.
    destruct (produce_chunks_In _ _ _ _ _ _ _ Hdocs Hd)
      as (_ & _ & s & e & cur & _ & _ & Hcur & -> & _).
    unfold covered_lines, chunk_end_of. simpl. lia.
  - intros Hmax fuel Hfuel.
    destruct (produce_chunks_total p lang lines chunk_max_lines fuel Hmax Hfuel)
      as (docs & Hdocs).
    destruct (produce_chunks_windows _ _ _ _ _ _ Hmax Hdocs)
      as (bs & wss & Hbs & Hflat & Hwss).
    exists bs, wss, docs. repeat split; try assumption.
    eapply Forall2_impl; [|exact Hwss].
    intros [s e] ws [Ht Hf]. split; [exact Ht|]. simpl in *.
    rewrite Forall_forall in Hf |- *. intros w Hw.
    pose proof (ztiles_In _ _ _ _ Ht Hw). rewrite (Hf w Hw) in *.
    unfold chunk_end_of in *. lia.
Qed.

Lemma chunk_size_bound_witness :
  (exists docs,
      produce_chunks mod_py "python" ten_lines 2 10 = Return docs
      /\ cited docs = [(1, 2); (3, 4); (6, 7); (8, 9); (10, 10)]%Z
      /\ forall d, In d docs -> (covered_lines d <= 2)%Z)
  /\ (1 <= 2)%Z /\ length ten_lines <= 10
  /\ exists bs wss docs,
      find_code_block_boundaries ten_lines "python" = Return bs
      /\ produce_chunks mod_py "python" ten_lines 2 10 = Return docs
      /\ docs = flat_map (emitted mod_py "python" ten_lines) (concat wss)
      /\ Forall2 (fun b ws =>
                    ztiles (Z.of_nat (fst b)) (Z.of_nat (snd b)) ws
                    /\ Forall (fun w => (0 < snd w - fst w <= 2)%Z) ws) bs wss.
Proof.
  destruct (chunk_size_bound mod_py "python" ten_lines 2) as (Hsize & Hwin).
  split.
  - eexists. split; [vm_compute; reflexivity|]. split; [reflexivity|].
    intros d Hd. eapply (Hsize 10); [vm_compute; reflexivity | exact Hd].
  - split; [lia|]. split; [vm_compute; lia|].
    apply Hwin; [lia | vm_compute; lia].
Defined.

(** C6, as stated, fails for [chunk_max_lines = 0]: the window at the
    start of the only range of a one-line text file is empty, the position
    never moves, and the range is never exhausted, whatever the fuel.  With
    [chunk_max_lines = -1] the position moves to the left, for ever. *)
Lemma zero_window_never_exhausts :
  find_code_block_boundaries one_line "text" = Return [(0, 1)]
  /\ chunk_end_of 0 0 1 = 0%Z
  /\ (~ exists fuel docs,
        produce_chunks notes_txt "text" one_line 0 fuel = Return docs)
  /\ chunk_end_of (-1) 0 1 = (-1)%Z
  /\ (~ exists fuel docs,
        produce_chunks notes_txt "text" one_line (-1) fuel = Return docs).
Proof.
  split; [reflexivity|]. split; [reflexivity|].
  assert (Hstuck : forall m, (m <= 0)%Z ->
            ~ exists fuel docs,
                produce_chunks notes_txt "text" one_line m fuel = Return docs).
  { intros m Hm (fuel & docs & H). unfold produce_chunks in H.
    change (find_code_block_boundaries one_line "text")
      with (Return (A := list (nat * nat)) [(0, 1)]) in H.
    cbn [bind for_boundaries] in H.
    rewrite window_loop_stuck in H by lia. discriminate. }
  split; [apply Hstuck; lia|]. split; [reflexivity|]. apply Hstuck; lia.
Qed.

(* ------------------------------------------------------------------ *)
(** C7: every chunk that is emitted was made from a half-open window
    [[cur, chunk_end)] of a boundary range, with
    [chunk_end = min(cur + chunk_max_lines, end)]; its text is the joined,
    right-trimmed lines of the window and its metadata has
    [line_start = cur + 1] and [line_end = chunk_end].  (For the window
    [[2, 5)] of a ten-line file: [line_start = 3], [line_end = 5].) *)
Theorem line_numbering p lang lines chunk_max_lines fuel docs d :
  produce_chunks p lang lines chunk_max_lines fuel = Return docs ->
  In d docs ->
  exists bs s e cur chunk_end,
    find_code_block_boundaries lines lang = Return bs
    /\ In (s, e) bs
    /\ (Z.of_nat s <= cur < chunk_end)%Z
    /\ chunk_end = Z.min (cur + chunk_max_lines) (Z.of_nat e)
    /\ page_content d = rstrip (join (slice lines cur chunk_end))
    /\ line_start (metadata d) = (cur + 1)%Z
    /\ line_end (metadata d) = chunk_end.
Proof.
  intros H Hd.
  destruct (produce_chunks_In _ _ _ _ _ _ _ H Hd)
    as (Hmax & bs & s & e & cur & Hbs & Hb & Hcur & -> & _).
  exists bs, s, e, cur, (chunk_end_of chunk_max_lines cur (Z.of_nat e)).
  unfold chunk_end_of, content_of. simpl.
  repeat split; try assumption; lia.
Qed.

Lemma line_numbering_witness :
  exists docs d,
    produce_chunks mod_py "python" ten_lines 400 10 = Return docs
    /\ nth_error docs 1 = Some d
    /\ line_start (metadata d) = 3%Z /\ line_end (metadata d) = 5%Z
    /\ exists bs s e cur chunk_end,
        find_code_block_boundaries ten_lines "python" = Return bs
        /\ In (s, e) bs
        /\ (Z.of_nat s <= cur < chunk_end)%Z
        /\ chunk_end = Z.min (cur + 400) (Z.of_nat e)
        /\ page_content d = rstrip (join (slice ten_lines cur chunk_end))
        /\ line_start (metadata d) = (cur + 1)%Z
        /\ line_end (metadata d) = chunk_end.
Proof.
  eexists. eexists.
  split; [vm_compute; reflexivity|].
  split; [reflexivity|].
  split; [reflexivity|]. split; [reflexivity|].
  eapply (line_numbering mod_py "python" ten_lines 400 10);
    [vm_compute; reflexivity | right; left; reflexivity].
Defined.

(* ------------------------------------------------------------------ *)
(** C8: the text of every emitted chunk is not empty and not all
    whitespace.  A window of blank lines is dropped: the pass appends
    nothing and the loop goes on from the end of the window.  A boundary
    range of blank lines yields no chunk: the loop over it ends (when
    [chunk_max_lines >= 1]) and leaves [docs] as it was. *)
Theorem blank_windows_dropped p lang lines chunk_max_lines :
  (forall fuel docs d,
      produce_chunks p lang lines chunk_max_lines fuel = Return docs ->
      In d docs ->
      page_content d <> []
      /\ exists c, In c (page_content d) /\ isspace c = false)
  /\ (forall fuel cur end_ docs,
        (cur < end_)%Z ->
        let chunk_end := Z.min (cur + chunk_max_lines) end_ in
        Forall (fun line => blank line = true) (slice lines cur chunk_end) ->
        window_loop p lang lines chunk_max_lines (S fuel) cur end_ docs
        = window_loop p lang lines chunk_max_lines fuel chunk_end end_ docs)
  /\ (forall (s e : nat) fuel docs,
        (forall k, s <= k < e -> blank (nth k lines []) = true) ->
        (forall docs',
            window_loop p lang lines chunk_max_lines fuel
              (Z.of_nat s) (Z.of_nat e) docs = Return docs' ->
            docs' = docs)
        /\ ((1 <= chunk_max_lines)%Z -> e - s <= fuel ->
            window_loop p lang lines chunk_max_lines fuel
              (Z.of_nat s) (Z.of_nat e) docs = Return docs)).
Proof.
  split; [|split].
  - intros fuel docs d H Hd.
    destruct (produce_chunks_In _ _ _ _ _ _ _ H Hd)
      as (_ & _ & _ & _ & _ & _ & _ & _ & _ & Hne).
    rewrite strip_truthy in Hne. apply negb_true_iff in Hne.
    split.
    + intros E. rewrite E in Hne. discriminate.
    + now apply not_blank_witness.
  - intros fuel cur end_ docs Hlt chunk_end Hblank.
    rewrite window_loop_step by exact Hlt.
    rewrite (emitted_blank p lang lines
               (cur, chunk_end_of chunk_max_lines cur end_) Hblank).
    now rewrite app_nil_r.
  - intros s e fuel docs Hblank. split.
    + intros docs' H.
      apply (window_loop_blank_range _ _ _ _ s e fuel _ _ _ Hblank) in H;
        [exact H | lia].
    + intros Hmax Hfuel.
      destruct (window_loop_total p lang lines chunk_max_lines fuel
                  (Z.of_nat s) (Z.of_nat e) docs Hmax) as (docs' & H); [lia|].
      rewrite H. f_equal.
      apply (window_loop_blank_range _ _ _ _ s e fuel _ _ _ Hblank) in H;
        [exact H | lia].
Qed.

Lemma blank_windows_dropped_witness :
  (exists docs d,
      produce_chunks app_js "javascript" blank_then_code 400 3 = Return docs
      /\ In d docs
      /\ page_content d <> []
      /\ exists c, In c (page_content d) /\ isspace c = false)
  /\ (forall k, 0 <= k < 2 -> blank (nth k blank_then_code []) = true)
  /\ window_loop app_js "javascript" blank_then_code 400 2 0 2 [] = Return [].
Proof.
  assert (Hblank : forall k, 0 <= k < 2 -> blank (nth k blank_then_code []) = true).
  { intros k Hk. destruct k as [|[|k]]; [reflexivity | reflexivity | lia]. }
  destruct (blank_windows_dropped app_js "javascript" blank_then_code 400)
    as (Hcontent & _ & Hrange).
  split; [|split; [exact Hblank|]].
  - eexists. eexists.
    split; [vm_compute; reflexivity|]. split; [left; reflexivity|].
    eapply (Hcontent 3); [vm_compute; reflexivity | left; reflexivity].
  - apply (Hrange 0 2 2 [] Hblank); simpl; lia.
Defined.

(* ------------------------------------------------------------------ *)
(** C9: for every list of lines, every language and every
    [chunk_max_lines >= 1], chunk production (boundary detection and window
    assembly) ends and returns a list of chunks: no exception escapes, one
    pass per line of the file is enough for every [while] loop, and the
    list returned does not depend on the bound. *)
Theorem chunk_production_terminates p lang lines chunk_max_lines :
  (1 <= chunk_max_lines)%Z ->
  exists docs, forall fuel,
    length lines <= fuel ->
    produce_chunks p lang lines chunk_max_lines fuel = Return docs.
Proof.
  intros Hmax. unfold produce_chunks.
  (* boundary detection returns, with every range inside the file *)
  destruct (find_code_block_boundaries_total lines lang) as (bs & -> & Hb).
  cbn [bind].
  (* so each [while] loop has fuel for one pass per line of its range *)
  destruct (for_boundaries_total p lang lines chunk_max_lines
              (length lines) bs [] Hmax) as (docs & Hdocs).
  { rewrite Forall_forall in Hb |- *. intros b Hin.
    destruct (Hb b Hin) as [_ He]. exact He. }
  exists docs. intros fuel Hfuel.
  now apply (for_boundaries_more_fuel p lang lines chunk_max_lines
               (length lines) fuel bs).
Qed.

Lemma chunk_production_terminates_witness :
  (1 <= 400)%Z
  /\ exists docs,
      cited docs = [(1, 2); (3, 5); (6, 10)]%Z
      /\ forall fuel, length ten_lines <= fuel ->
           produce_chunks mod_py "python" ten_lines 400 fuel = Return docs.
Proof.
  split; [lia|].
  destruct (chunk_production_terminates mod_py "python" ten_lines 400)
    as (docs & Hdocs); [lia|].
  exists docs. split; [|exact Hdocs].
  specialize (Hdocs 10 (Nat.le_refl 10)). vm_compute in Hdocs.
  injection Hdocs as <-. reflexivity.
Defined.

(* ------------------------------------------------------------------ *)
(** C10: with [chunk_max_lines >= 1] every chunk cites a line range inside
    the file: [1 <= line_start <= line_end <= len(lines)]. *)
Theorem cited_lines_inside_file p lang lines chunk_max_lines fuel docs d :
  (1 <= chunk_max_lines)%Z ->
  produce_chunks p lang lines chunk_max_lines fuel = Return docs ->
  In d docs ->
  (1 <= line_start (metadata d) <= line_end (metadata d))%Z
  /\ (line_end (metadata d) <= Z.of_nat (length lines))%Z.
Proof.
  intros Hmax H Hd.
  destruct (produce_chunks_In _ _ _ _ _ _ _ H Hd)
    as (_ & bs & s & e & cur & Hbs & Hb & Hcur & -> & _).
  destruct (find_code_block_boundaries_total lines lang) as (bs' & Hbs' & Hall).
  assert (bs' = bs) by congruence. subst bs'.
  rewrite Forall_forall in Hall. specialize (Hall _ Hb). simpl in Hall.
  unfold chunk_end_of. simpl. lia.
Qed.

Lemma cited_lines_inside_file_witness :
  exists docs d,
    (1 <= 400)%Z
    /\ produce_chunks mod_py "python" ten_lines 400 10 = Return docs
    /\ In d docs
    /\ (1 <= line_start (metadata d) <= line_end (metadata d))%Z
    /\ (line_end (metadata d) <= Z.of_nat (length ten_lines))%Z.
Proof.
  eexists. eexists.
  split; [lia|]. split; [vm_compute; reflexivity|].
  split; [right; right; left; reflexivity|].
  eapply (cited_lines_inside_file mod_py "python" ten_lines 400 10);
    [lia | vm_compute; reflexivity | right; right; left; reflexivity].
Defined.

(* ================================================================== *)
(** * Further properties of the chunker *)

(* ------------------------------------------------------------------ *)
(** ** Auxiliary facts *)

Lemma ztiles_cover a b ws (k : Z) :
  ztiles a b ws -> (a <= k < b)%Z ->
  exists w, In w ws /\ (fst w <= k < snd w)%Z.
Proof.
  revert a. induction ws as [|[s e] ws IH]; simpl; intros a H Hk; [lia|].
  destruct H as (-> & Hlt & H).
  destruct (Z.lt_ge_cases k e) as [Hke|Hke].
  - exists (a, e). split; [now left | simpl; lia].
  - destruct (IH e H) as (w & Hw & Hin); [lia|]. eauto.
Qed.

Lemma ztiles_app a b c ws1 ws2 :
  ztiles a b ws1 -> ztiles b c ws2 -> ztiles a c (ws1 ++ ws2).
Proof.
  revert a. induction ws1 as [|[s e] ws1 IH]; simpl; intros a H1 H2.
  - now subst.
  - destruct H1 as (-> & Hlt & H1). auto.
Qed.

(** The windows of consecutive ranges are consecutive. *)
Lemma tiles_windows_concat chunk_max_lines bs wss : forall a b,
  tiles a b bs -> Forall2 (windows_of chunk_max_lines) bs wss ->
  ztiles (Z.of_nat a) (Z.of_nat b) (concat wss).
Proof.
  intros a b Ht HF. revert a Ht.
  induction HF as [|[s e] ws bs wss [Hw _] _ IH]; simpl; intros a Ht.
  - now subst.
  - destruct Ht as (-> & Hle & Ht). simpl in Hw.
    apply (ztiles_app _ (Z.of_nat e)); [exact Hw | now apply IH].
Qed.

(** An item inside the bounds of a slice is in the slice. *)
Lemma slice_nth_In {A} (l : list A) (a b : Z) (k : nat) (d : A) :
  (0 <= a <= Z.of_nat k)%Z -> (Z.of_nat k < b)%Z -> k < length l ->
  In (nth k l d) (slice l a b).
Proof.
  intros Ha Hb Hk. unfold slice, slice_bound.
  destruct (Z.ltb_spec a 0); [lia|]. destruct (Z.ltb_spec b 0); [lia|].
  set (len := Z.of_nat (length l)).
  rewrite (Z.min_l a) by lia.
  replace (nth k l d)
    with (nth (k - Z.to_nat a)
            (firstn (Z.to_nat (Z.min b len - a)) (skipn (Z.to_nat a) l)) d).
  - apply nth_In. rewrite length_firstn, length_skipn. lia.
  - rewrite nth_firstn.
    destruct (Nat.ltb_spec (k - Z.to_nat a) (Z.to_nat (Z.min b len - a)));
      [|lia].
    rewrite nth_skipn. f_equal. lia.
Qed.

Lemma blank_join_false (l : list str) line :
  In line l -> blank line = false -> blank (join l) = false.
Proof.
  unfold join. induction l as [|x l IH]; simpl; [easy|].
  intros [->|Hin] Hb; rewrite blank_app.
  - now rewrite Hb.
  - rewrite (IH Hin Hb). apply andb_false_r.
Qed.

Lemma lstrip_head s :
  lstrip s = [] \/ exists c t, lstrip s = c :: t /\ isspace c = false.
Proof.
  induction s as [|c s IH]; simpl; [now left|].
  destruct (isspace c) eqn:E; [exact IH | right; eauto].
Qed.

Lemma rstrip_last s :
  rstrip s = [] \/ exists t c, rstrip s = t ++ [c] /\ isspace c = false.
Proof.
  unfold rstrip. destruct (lstrip_head (rev s)) as [->|(c & t & -> & Hc)].
  - now left.
  - right. exists (rev t), c. simpl. auto.
Qed.

Lemma StronglySorted_nth_error {A} (R : A -> A -> Prop) l :
  StronglySorted R l ->
  forall i j x y, i < j -> nth_error l i = Some x -> nth_error l j = Some y ->
  R x y.
Proof.
  induction 1 as [|a l _ IH Ha]; intros i j x y Hij Hi Hj.
  - destruct i; discriminate.
  - destruct j as [|j]; [lia|]. simpl in Hj.
    destruct i as [|i]; simpl in Hi.
    + injection Hi as <-. rewrite Forall_forall in Ha.
      apply Ha. now apply nth_error_In in Hj.
    + apply (IH i j); [lia | assumption | assumption].
Qed.

(** The chunks of consecutive windows cite ascending, disjoint ranges, all
    of them after the start of the first window. *)
Lemma emitted_chain_sorted p lang lines ws : forall a b,
  ztiles a b ws ->
  StronglySorted
    (fun d1 d2 => (line_end (metadata d1) < line_start (metadata d2))%Z)
    (flat_map (emitted p lang lines) ws)
  /\ Forall (fun d => (a < line_start (metadata d))%Z)
       (flat_map (emitted p lang lines) ws).
Proof.
  induction ws as [|[s e] ws IH]; simpl; intros a b H.
  - split; constructor.
  - destruct H as (-> & Hlt & H). destruct (IH e b H) as (Hs & Ha).
    assert (Hlater : Forall (fun d => (a < line_start (metadata d))%Z)
                       (flat_map (emitted p lang lines) ws)).
    { eapply Forall_impl; [|exact Ha]. simpl. intros; lia. }
    unfold emitted at 1 3. cbn [fst snd].
    destruct (truthy (strip (content_of lines a e))); simpl.
    + split; constructor; try assumption. simpl. lia.
    + split; assumption.
Qed.

(* ------------------------------------------------------------------ *)
(** ** No line with text on it is lost *)

(** X1: with [chunk_max_lines >= 1], in every language: a line of the file
    that is not blank lies in the cited range of some chunk. *)
Theorem nonblank_line_is_cited p lang (lines : list str) chunk_max_lines
    fuel docs k :
  (1 <= chunk_max_lines)%Z ->
  produce_chunks p lang lines chunk_max_lines fuel = Return docs ->
  k < length lines -> blank (nth k lines []) = false ->
  exists d,
    In d docs
    /\ (line_start (metadata d) <= Z.of_nat k + 1 <= line_end (metadata d))%Z.
Proof.
  intros Hmax H Hk Hline.
  destruct (produce_chunks_windows _ _ _ _ _ _ Hmax H)
    as (bs & wss & Hbs & -> & Hwss).
  destruct (boundaries_cover_ascending lines lang) as (bs' & Hbs' & Hcov & _).
  assert (bs' = bs) by congruence. subst bs'.
  destruct (covers_cover _ _ _ Hcov k) as ([s e] & Hr & Hin); [lia|].
  unfold in_range in Hin. simpl in Hin.
  apply andb_true_iff in Hin as [Hs He].
  apply Nat.leb_le in Hs. apply Nat.ltb_lt in He.
  destruct (Forall2_In_l _ _ _ _ Hwss Hr) as (ws & Hws & Ht & Hf).
  simpl in Ht.
  destruct (ztiles_cover _ _ _ (Z.of_nat k) Ht) as (w & Hw & Hkw); [lia|].
  pose proof (ztiles_In _ _ _ _ Ht Hw) as Hwr.
  assert (Hnb : blank (join (slice lines (fst w) (snd w))) = false).
  { apply (blank_join_false _ (nth k lines [])); [|exact Hline].
    apply slice_nth_In; lia. }
  eexists. split.
  - apply in_flat_map. exists w. split; [apply in_concat; eauto|].
    rewrite emitted_not_blank by exact Hnb. now left.
  - simpl. lia.
Qed.

Lemma nonblank_line_is_cited_witness :
  exists docs,
    (1 <= 2)%Z
    /\ produce_chunks mod_py "python" ten_lines 2 10 = Return docs
    /\ 7 < length ten_lines
    /\ blank (nth 7 ten_lines []) = false
    /\ exists d,
        In d docs
        /\ (line_start (metadata d) <= Z.of_nat 7 + 1 <= line_end (metadata d))%Z.
Proof.
  eexists. split; [lia|]. split; [vm_compute; reflexivity|].
  split; [vm_compute; lia|]. split; [reflexivity|].
  eapply (nonblank_line_is_cited mod_py "python" ten_lines 2 10);
    [lia | vm_compute; reflexivity | vm_compute; lia | reflexivity].
Defined.

(* ------------------------------------------------------------------ *)
(** ** Outside Python the chunks do not overlap *)

(** X2: with [chunk_max_lines >= 1] and a language other than python, the
    chunks come out in file order and cite disjoint ranges: a chunk ends
    before every later chunk starts. *)
Theorem chunks_disjoint_outside_python p lang (lines : list str)
    chunk_max_lines fuel docs :
  lang <> "python"%string ->
  (1 <= chunk_max_lines)%Z ->
  produce_chunks p lang lines chunk_max_lines fuel = Return docs ->
  forall i j di dj,
    i < j -> nth_error docs i = Some di -> nth_error docs j = Some dj ->
    (line_end (metadata di) < line_start (metadata dj))%Z.
Proof.
  intros Hlang Hmax H.
  destruct (produce_chunks_windows _ _ _ _ _ _ Hmax H)
    as (bs & wss & Hbs & -> & Hwss).
  destruct (boundaries_tile_outside_python lines lang Hlang)
    as (bs' & Hbs' & Htiles).
  assert (bs' = bs) by congruence. subst bs'.
  pose proof (tiles_windows_concat _ _ _ _ _ Htiles Hwss) as Hchain.
  destruct (emitted_chain_sorted p lang lines _ _ _ Hchain) as (Hsorted & _).
  intros i j di dj Hij Hi Hj.
  exact (StronglySorted_nth_error _ _ Hsorted i j di dj Hij Hi Hj).
Qed.

Lemma chunks_disjoint_outside_python_witness :
  exists docs d0 d1,
    "javascript"%string <> "python"%string
    /\ (1 <= 1)%Z
    /\ produce_chunks app_js "javascript" two_defs 1 5 = Return docs
    /\ 0 < 3
    /\ nth_error docs 0 = Some d0 /\ nth_error docs 3 = Some d1
    /\ (line_end (metadata d0) < line_start (metadata d1))%Z.
Proof.
  eexists. eexists. eexists.
  split; [discriminate|]. split; [lia|].
  split; [vm_compute; reflexivity|]. split; [lia|].
  split; [reflexivity|]. split; [reflexivity|].
  eapply (chunks_disjoint_outside_python app_js "javascript" two_defs 1 5)
    with (i := 0) (j := 3);
    [discriminate | lia | vm_compute; reflexivity | lia
    | reflexivity | reflexivity].
Defined.

(* ------------------------------------------------------------------ *)
(** ** The text of a chunk *)

(** X3: whatever [chunk_max_lines] is: the text of a chunk is what its cited
    range says, the lines [line_start .. line_end] of the file joined and
    right-trimmed, and it ends with a character that is not whitespace. *)
Theorem chunk_text_from_cited_range p lang (lines : list str)
    chunk_max_lines fuel docs d :
  produce_chunks p lang lines chunk_max_lines fuel = Return docs ->
  In d docs ->
  page_content d
  = rstrip (join (slice lines (line_start (metadata d) - 1)
                    (line_end (metadata d))))
  /\ exists t c, page_content d = t ++ [c] /\ isspace c = false.
Proof.
  intros H Hd.
  destruct (produce_chunks_In _ _ _ _ _ _ _ H Hd)
    as (_ & bs & s & e & cur & _ & _ & _ & -> & Hne).
  cbn [make_document metadata line_start line_end page_content] in *.
  split.
  - unfold content_of. now replace (cur + 1 - 1)%Z with cur by lia.
  - unfold content_of in *.
    destruct (rstrip_last
                (join (slice lines cur
                         (chunk_end_of chunk_max_lines cur (Z.of_nat e)))))
      as [E|Hlast]; [|exact Hlast].
    rewrite E in Hne. discriminate.
Qed.

Lemma chunk_text_from_cited_range_witness :
  exists docs d,
    produce_chunks mod_py "python" ten_lines 400 10 = Return docs
    /\ In d docs
    /\ page_content d = lit "import os"
    /\ page_content d
       = rstrip (join (slice ten_lines (line_start (metadata d) - 1)
                         (line_end (metadata d))))
    /\ exists t c, page_content d = t ++ [c] /\ isspace c = false.
Proof.
  eexists. eexists.
  split; [vm_compute; reflexivity|]. split; [left; reflexivity|].
  split; [reflexivity|].
  eapply (chunk_text_from_cited_range mod_py "python" ten_lines 400 10);
    [vm_compute; reflexivity | left; reflexivity].
Defined.

(* ------------------------------------------------------------------ *)
(** ** The fallback caps the chunk size at 200 lines *)

Lemma window_loop_same p lang lines m1 m2 fuel cur e docs :
  (e - cur <= m1)%Z -> (e - cur <= m2)%Z -> (1 <= m1)%Z -> (1 <= m2)%Z ->
  window_loop p lang lines m1 fuel cur e docs
  = window_loop p lang lines m2 fuel cur e docs.
Proof.
  intros H1 H2 P1 P2.
  destruct (Z.lt_ge_cases cur e) as [Hlt|Hge].
  - destruct fuel as [|fuel].
    + simpl. now destruct (cur <? e)%Z.
    + rewrite !window_loop_step by exact Hlt.
      assert (E1 : chunk_end_of m1 cur e = e) by (unfold chunk_end_of; lia).
      assert (E2 : chunk_end_of m2 cur e = e) by (unfold chunk_end_of; lia).
      rewrite E1, E2. now rewrite !window_loop_done by lia.
  - now rewrite !window_loop_done by exact Hge.
Qed.

Lemma for_boundaries_same p lang lines m1 m2 fuel bs : forall docs,
  (1 <= m1)%Z -> (1 <= m2)%Z ->
  Forall (fun b => (Z.of_nat (snd b) - Z.of_nat (fst b) <= Z.min m1 m2)%Z) bs ->
  for_boundaries p lang lines m1 fuel bs docs
  = for_boundaries p lang lines m2 fuel bs docs.
Proof.
  induction bs as [|[s e] bs IH]; intros docs P1 P2 Hb; [reflexivity|].
  apply Forall_cons_iff in Hb as [Hse Hb]. simpl in Hse. simpl.
  rewrite (window_loop_same p lang lines m1 m2) by lia.
  destruct (window_loop p lang lines m2 fuel (Z.of_nat s) (Z.of_nat e) docs);
    simpl; auto.
Qed.

(** X4: for a language outside the two heuristic families, a
    [chunk_max_lines] of 200 or more has no effect: the chunks are those of
    [chunk_max_lines = 200], so no chunk has more than 200 lines, the
    default of 400 notwithstanding. *)
Theorem fallback_caps_chunks_at_200 p lang (lines : list str)
    chunk_max_lines fuel :
  lang <> "python"%string -> lang <> "javascript"%string ->
  lang <> "typescript"%string ->
  (200 <= chunk_max_lines)%Z ->
  produce_chunks p lang lines chunk_max_lines fuel
  = produce_chunks p lang lines 200 fuel
  /\ forall docs d,
       produce_chunks p lang lines chunk_max_lines fuel = Return docs ->
       In d docs -> (covered_lines d <= 200)%Z.
Proof.
  intros H1 H2 H3 Hmax.
  assert (E : produce_chunks p lang lines chunk_max_lines fuel
              = produce_chunks p lang lines 200 fuel).
  { unfold produce_chunks, find_code_block_boundaries.
    rewrite (pattern_of_None lang H1 H2 H3). cbv zeta. cbn [bind].
    apply for_boundaries_same; try lia.
    apply Forall_forall. intros r Hin.
    apply In_nth_error in Hin as (k & Hk).
    apply fallback_nth in Hk as (_ & ->). simpl. lia. }
  split; [exact E|].
  intros docs d H Hd. rewrite E in H.
  destruct (produce_chunks_In _ _ _ _ _ _ _ H Hd)
    as (_ & _ & s & e & cur & _ & _ & Hcur & -> & _).
  unfold covered_lines, chunk_end_of. simpl. lia.
Qed.

Lemma fallback_caps_chunks_at_200_witness :
  "text"%string <> "python"%string
  /\ "text"%string <> "javascript"%string
  /\ "text"%string <> "typescript"%string
  /\ (200 <= 400)%Z
  /\ (exists docs,
        produce_chunks notes_txt "text" long_script 400 401 = Return docs
        /\ cited docs = [(1, 200); (201, 400); (401, 401)]%Z)
  /\ produce_chunks notes_txt "text" long_script 400 401
     = produce_chunks notes_txt "text" long_script 200 401
  /\ forall docs d,
       produce_chunks notes_txt "text" long_script 400 401 = Return docs ->
       In d docs -> (covered_lines d <= 200)%Z.
Proof.
  assert (N1 : "text"%string <> "python"%string) by discriminate.
  assert (N2 : "text"%string <> "javascript"%string) by discriminate.
  assert (N3 : "text"%string <> "typescript"%string) by discriminate.
  repeat (split; [assumption|]). split; [lia|].
  split; [eexists; split; vm_compute; reflexivity|].
  apply (fallback_caps_chunks_at_200 notes_txt "text" long_script 400 401
           N1 N2 N3); lia.
Defined.

(* ------------------------------------------------------------------ *)
(** ** One block start per range *)

(** The lines an adjusted start has absorbed are decorator lines. *)
Lemma adjust_start_run lines lang x s :
  adjust_start lines lang x = Return s ->
  forall k, s <= k < x -> is_decorator (nth k lines []) = true.
Proof.
  unfold adjust_start. destruct (lang =? "python")%string; intros H k Hk.
  - destruct (walk_back_spec _ _ _ H) as (_ & Hrun & _). now apply Hrun.
  - injection H as <-. lia.
Qed.

Section OneStart.

Variable lines : list str.
Variable lang : string.
Variable pat : regex.
Hypothesis Hpat : pattern_of lang = Some pat.

Local Abbreviation starts_at := (fun k => is_start pat (nth k lines []) = true).

(** Read along a tail of the start indices that holds every block start
    from its head on: each range holds the index it was built from and no
    other block start. *)
Lemma block_ranges_one_start rest bs :
  block_ranges lines lang rest bs ->
  StronglySorted lt rest ->
  Forall (fun x => x < length lines) rest ->
  (forall k, k < length lines -> starts_at k ->
             match rest with x :: _ => x <= k | [] => True end -> In k rest) ->
  Forall (fun b => exists x,
            In x rest /\ fst b <= x < snd b
            /\ forall k, fst b <= k < snd b -> starts_at k -> k = x) bs.
Proof.
  induction 1 as [|x s Hs|x y rest s bs Hs _ IH]; intros Hsort Hb Hall.
  - constructor.
  - apply Forall_cons_iff in Hb as [Hx _].
    pose proof (adjust_start_le _ _ _ _ Hs) as Hle.
    constructor; [|constructor]. exists x. simpl.
    split; [now left|]. split; [lia|]. intros k Hk Hstart.
    destruct (Nat.lt_ge_cases k x) as [Hlt|Hge].
    + pose proof (adjust_start_run _ _ _ _ Hs k (conj (proj1 Hk) Hlt)) as Hd.
      rewrite (start_not_decorator lang pat _ Hpat Hstart) in Hd.
      discriminate.
    + destruct (Hall k (proj2 Hk) Hstart Hge) as [E|[]]. now symmetry.
  - apply StronglySorted_inv in Hsort as [Hsort Hlt].
    pose proof Hlt as Hlt'. apply Forall_cons_iff in Hlt' as [Hxy _].
    apply Forall_cons_iff in Hb as [Hx Hb].
    pose proof Hb as Hb'. apply Forall_cons_iff in Hb' as [Hy _].
    pose proof (adjust_start_le _ _ _ _ Hs) as Hle.
    constructor.
    + exists x. simpl. split; [now left|]. split; [lia|].
      intros k Hk Hstart.
      destruct (Nat.lt_ge_cases k x) as [Hkx|Hge].
      * pose proof (adjust_start_run _ _ _ _ Hs k (conj (proj1 Hk) Hkx))
          as Hd.
        rewrite (start_not_decorator lang pat _ Hpat Hstart) in Hd.
        discriminate.
      * destruct (Hall k ltac:(lia) Hstart Hge) as [E|Hin]; [now symmetry|].
        apply StronglySorted_inv in Hsort as [_ Hylt].
        destruct Hin as [<-|Hin]; [lia|].
        rewrite Forall_forall in Hylt. specialize (Hylt _ Hin). lia.
    + eapply Forall_impl; [|apply IH; try assumption].
      * simpl. intros b (x' & Hin & Hrest). exists x'. split; [now right|].
        exact Hrest.
      * intros k Hk Hstart Hyk.
        destruct (Hall k Hk Hstart ltac:(lia)) as [E|Hin]; [lia | exact Hin].
Qed.

End OneStart.

(** X5: in python, javascript and typescript no range holds two lines that
    start a block: a block begins at most once per range. *)
Theorem one_block_start_per_range (lines : list str) lang pat bs :
  pattern_of lang = Some pat ->
  find_code_block_boundaries lines lang = Return bs ->
  forall s e k1 k2,
    In (s, e) bs ->
    s <= k1 < e -> s <= k2 < e ->
    is_start pat (nth k1 lines []) = true ->
    is_start pat (nth k2 lines []) = true ->
    k1 = k2.
Proof.
  intros Hpat Hbs s e k1 k2 Hin H1 H2 S1 S2.
  destruct (start_indices pat lines) as [|x rest] eqn:E.
  - (* no start at all: the single range is the whole file *)
    unfold find_code_block_boundaries in Hbs. rewrite Hpat, E in Hbs.
    injection Hbs as <-. destruct Hin as [Hin|[]]. injection Hin as <- <-.
    assert (Hk : In k1 (start_indices pat lines))
      by (apply start_indices_In; split; [lia | exact S1]).
    rewrite E in Hk. destruct Hk.
  - destruct (find_code_block_boundaries_heuristic lines lang pat Hpat)
      as (bs0 & Hbs0 & Hshape); [congruence|].
    assert (bs = insert_leading bs0) by congruence. subst bs.
    pose proof (start_indices_sorted pat lines) as Hsort.
    pose proof (start_indices_bounded pat lines) as Hb.
    assert (Hall : forall k, k < length lines ->
                     is_start pat (nth k lines []) = true ->
                     In k (start_indices pat lines))
      by (intros; apply start_indices_In; auto).
    rewrite E in *.
    pose proof (block_ranges_one_start lines lang pat Hpat _ _ Hshape Hsort Hb
                  (fun k Hk Hs _ => Hall k Hk Hs)) as Hone.
    assert (Hmin : forall k, In k (x :: rest) -> x <= k).
    { intros k [<-|Hk]; [lia|].
      apply StronglySorted_inv in Hsort as [_ Hlt].
      rewrite Forall_forall in Hlt. specialize (Hlt _ Hk). lia. }
    unfold insert_leading in Hin. destruct bs0 as [|[s0 e0] bs0].
    { destruct Hin. }
    assert (Hs0 : s0 <= x).
    { inversion Hshape; subst;
        match goal with H : adjust_start _ _ _ = _ |- _ =>
          apply adjust_start_le in H; exact H end. }
    assert (Hbound : Forall (fun b => fst b <= snd b /\ snd b <= length lines)
                       ((s0, e0) :: bs0))
      by (eapply block_ranges_bounded; eassumption).
    assert (Hcase : In (s, e) ((s0, e0) :: bs0) \/ (s = 0 /\ e = s0)).
    { destruct (0 <? s0); [|now left].
      destruct Hin as [Hin|Hin]; [right | now left].
      now injection Hin as <- <-. }
    destruct Hcase as [Hin'|[-> ->]].
    + rewrite Forall_forall in Hone.
      destruct (Hone _ Hin') as (x' & _ & _ & Huniq). simpl in Huniq.
      rewrite (Huniq k1 H1 S1), (Huniq k2 H2 S2). reflexivity.
    + (* the leading range lies before the first start *)
      apply Forall_cons_iff in Hbound as [[_ He0] _]. simpl in He0.
      apply Forall_cons_iff in Hb as [Hx _].
      specialize (Hmin k1 (Hall k1 ltac:(lia) S1)). lia.
Qed.

Lemma one_block_start_per_range_witness :
  pattern_of "python" = Some python_pattern
  /\ find_code_block_boundaries ten_lines "python"
     = Return [(0, 2); (2, 5); (5, 10)]
  /\ forall k1 k2,
       In (2, 5) [(0, 2); (2, 5); (5, 10)] ->
       2 <= k1 < 5 -> 2 <= k2 < 5 ->
       is_start python_pattern (nth k1 ten_lines []) = true ->
       is_start python_pattern (nth k2 ten_lines []) = true ->
       k1 = k2.
Proof.
  split; [reflexivity|]. split; [reflexivity|].
  apply (one_block_start_per_range ten_lines "python" python_pattern
           [(0, 2); (2, 5); (5, 10)]); reflexivity.
Defined.

(* ------------------------------------------------------------------ *)
(** ** The leading range *)

(** X6: when some line starts a block, the ranges begin with the block of the
    first start line, which begins at its adjusted start [s], or, when [s]
    is not line 0, with the range [[0, s)] followed by that block; no line
    before the first start line starts a block. *)
Theorem leading_preamble (lines : list str) lang pat x rest :
  pattern_of lang = Some pat ->
  start_indices pat lines = x :: rest ->
  exists s e bs',
    adjust_start lines lang x = Return s /\ s <= x < e
    /\ find_code_block_boundaries lines lang
       = Return (if 0 <? s then (0, s) :: (s, e) :: bs' else (s, e) :: bs')
    /\ forall k, k < x -> is_start pat (nth k lines []) = false.
Proof.
  intros Hpat E.
  destruct (find_code_block_boundaries_heuristic lines lang pat Hpat)
    as (bs0 & Hbs0 & Hshape); [congruence|].
  pose proof (start_indices_sorted pat lines) as Hsort.
  pose proof (start_indices_bounded pat lines) as Hb.
  assert (Hall : forall k, k < length lines ->
                   is_start pat (nth k lines []) = true ->
                   In k (start_indices pat lines))
    by (intros; apply start_indices_In; auto).
  rewrite E in *.
  apply Forall_cons_iff in Hb as [Hx Hb].
  assert (Hhead : exists s e bs', bs0 = (s, e) :: bs'
                    /\ adjust_start lines lang x = Return s /\ x < e).
  { inversion Hshape; subst.
    - eauto 7.
    - apply StronglySorted_inv in Hsort as [_ Hlt].
      apply Forall_cons_iff in Hlt as [Hxy _]. eauto 7. }
  destruct Hhead as (s & e & bs' & -> & Hs & He).
  exists s, e, bs'. split; [exact Hs|].
  split; [split; [now apply (adjust_start_le lines lang) | exact He]|].
  split; [exact Hbs0|].
  intros k Hk. destruct (is_start pat (nth k lines [])) eqn:S; [|reflexivity].
  destruct (Hall k ltac:(lia) S) as [<-|Hin]; [lia|].
  apply StronglySorted_inv in Hsort as [_ Hlt].
  rewrite Forall_forall in Hlt. specialize (Hlt _ Hin). lia.
Qed.

Lemma leading_preamble_witness :
  pattern_of "python" = Some python_pattern
  /\ start_indices python_pattern ten_lines = [2; 5]
  /\ find_code_block_boundaries ten_lines "python"
     = Return [(0, 2); (2, 5); (5, 10)]
  /\ exists s e bs',
      adjust_start ten_lines "python" 2 = Return s /\ s <= 2 < e
      /\ find_code_block_boundaries ten_lines "python"
         = Return (if 0 <? s then (0, s) :: (s, e) :: bs' else (s, e) :: bs')
      /\ forall k, k < 2 -> is_start python_pattern (nth k ten_lines []) = false.
Proof.
  split; [reflexivity|]. split; [reflexivity|]. split; [reflexivity|].
  apply (leading_preamble ten_lines "python" python_pattern 2 [5]);
    reflexivity.
Defined.

(* ------------------------------------------------------------------ *)
(** ** Where two ranges can share a line *)

Lemma in_range_overlap k r1 r2 :
  in_range k r1 = true -> in_range k r2 = true -> overlap r1 r2 = true.
Proof.
  unfold in_range, overlap. intros H1 H2.
  apply andb_true_iff in H1 as [A1 B1]. apply andb_true_iff in H2 as [A2 B2].
  apply Nat.leb_le in A1, A2. apply Nat.ltb_lt in B1, B2.
  apply Nat.ltb_lt. lia.
Qed.

Section Overlaps.

Variable lines : list str.
Variable lang : string.

(** A range built from a tail of the indices either is the first one, at
    the adjusted start of the head, or starts after the head. *)
Lemma block_ranges_head_or_later y rest bs :
  block_ranges lines lang (y :: rest) bs ->
  StronglySorted lt (y :: rest) ->
  Forall (fun x => is_decorator (nth x lines []) = false) (y :: rest) ->
  forall j r, nth_error bs j = Some r ->
    (j = 0 /\ adjust_start lines lang y = Return (fst r)) \/ y < fst r.
Proof.
  intros Hshape Hsort Hnd j r Hj.
  apply StronglySorted_inv in Hsort as [Hsort Hlt].
  apply Forall_cons_iff in Hnd as [Hy Hnd].
  inversion Hshape as [|x s Hs|x z rest' s bs' Hs Hshape']; subst.
  - destruct j as [|[|j]]; simpl in Hj; try discriminate.
    injection Hj as <-. now left.
  - destruct j as [|j]; simpl in Hj.
    + injection Hj as <-. now left.
    + right.
      destruct (block_ranges_ascending lines lang _ _ Hshape' Hsort Hnd)
        as (_ & Habove).
      specialize (Habove y Hlt Hy). rewrite Forall_forall in Habove.
      apply Habove. apply in_map. now apply nth_error_In in Hj.
Qed.

Lemma block_ranges_overlap rest bs :
  block_ranges lines lang rest bs ->
  StronglySorted lt rest ->
  Forall (fun x => is_decorator (nth x lines []) = false) rest ->
  forall i j r1 r2 k,
    i < j -> nth_error bs i = Some r1 -> nth_error bs j = Some r2 ->
    in_range k r1 = true -> in_range k r2 = true ->
    j = S i /\ is_decorator (nth k lines []) = true.
Proof.
  induction 1 as [|x s Hs|x y rest s bs Hs Hshape IH];
    intros Hsort Hnd i j r1 r2 k Hij Hi Hj K1 K2.
  - destruct i; discriminate.
  - destruct j as [|[|j]]; simpl in Hj; try discriminate. lia.
  - pose proof Hsort as Hsort'. pose proof Hnd as Hnd'.
    apply StronglySorted_inv in Hsort' as [Hsort' _].
    apply Forall_cons_iff in Hnd' as [_ Hnd'].
    destruct j as [|j]; [lia|]. simpl in Hj.
    destruct i as [|i]; simpl in Hi.
    + injection Hi as <-.
      unfold in_range in K1, K2.
      apply andb_true_iff in K1 as [_ K1]. apply Nat.ltb_lt in K1.
      apply andb_true_iff in K2 as [K2 _]. apply Nat.leb_le in K2.
      simpl in K1.
      destruct (block_ranges_head_or_later _ _ _ Hshape Hsort' Hnd' j r2 Hj)
        as [[-> Hadj]|Hlater]; [|lia].
      split; [reflexivity|].
      apply (adjust_start_run _ _ _ _ Hadj). lia.
    + destruct (IH Hsort' Hnd' i j r1 r2 k) as [-> Hd]; auto with arith.
Qed.

End Overlaps.

(** X7: two ranges share a line only in python, only when one follows the
    other directly, and the line is then a decorator line. *)
Theorem ranges_share_decorator_lines_only (lines : list str) lang bs :
  find_code_block_boundaries lines lang = Return bs ->
  forall i j r1 r2 k,
    i < j -> nth_error bs i = Some r1 -> nth_error bs j = Some r2 ->
    in_range k r1 = true -> in_range k r2 = true ->
    lang = "python"%string /\ j = S i
    /\ is_decorator (nth k lines []) = true.
Proof.
  intros Hbs i j r1 r2 k Hij Hi Hj K1 K2.
  destruct (String.eqb_spec lang "python") as [->|Hlang].
  2:{ destruct (boundaries_tile_outside_python lines lang Hlang)
        as (bs' & Hbs' & Ht).
      assert (bs' = bs) by congruence. subst bs'.
      destruct (tiles_apart _ _ _ Ht i j r1 r2 Hij Hi Hj) as [_ Hno].
      rewrite (in_range_overlap k r1 r2 K1 K2) in Hno. discriminate. }
  split; [reflexivity|].
  destruct (start_indices python_pattern lines) as [|x rest] eqn:E.
  - assert (Hpat : pattern_of "python" = Some python_pattern) by reflexivity.
    unfold find_code_block_boundaries in Hbs. rewrite Hpat, E in Hbs.
    injection Hbs as <-.
    destruct j as [|[|j]]; simpl in Hj; try discriminate. lia.
  - destruct (find_code_block_boundaries_heuristic lines "python"
                python_pattern eq_refl) as (bs0 & Hbs0 & Hshape);
      [congruence|].
    assert (bs = insert_leading bs0) by congruence. subst bs.
    pose proof (start_indices_sorted python_pattern lines) as Hsort.
    assert (Hnd : Forall (fun x => is_decorator (nth x lines []) = false)
                    (start_indices python_pattern lines)).
    { apply Forall_forall. intros n Hn. apply start_indices_In in Hn as [_ Hn].
      now apply python_start_not_decorator. }
    pose proof (block_ranges_overlap lines "python" _ _ Hshape Hsort Hnd)
      as Hover.
    destruct (block_ranges_ascending lines "python" _ _ Hshape Hsort Hnd)
      as (Hasc & _).
    unfold insert_leading in Hi, Hj. destruct bs0 as [|[s0 e0] bs0].
    { destruct i; discriminate. }
    destruct (0 <? s0).
    + destruct j as [|j]; [lia|]. simpl in Hj.
      destruct i as [|i]; simpl in Hi.
      * (* the leading range ends where every other range starts or later *)
        injection Hi as <-. exfalso.
        unfold in_range in K1, K2.
        apply andb_true_iff in K1 as [_ K1]. apply Nat.ltb_lt in K1.
        apply andb_true_iff in K2 as [K2 _]. apply Nat.leb_le in K2.
        simpl in K1.
        simpl in Hasc. apply StronglySorted_inv in Hasc as [_ Hlt].
        destruct j as [|j]; simpl in Hj.
        -- injection Hj as <-. simpl in K2. lia.
        -- rewrite Forall_forall in Hlt.
           assert (s0 < fst r2)
             by (apply Hlt, in_map; now apply nth_error_In in Hj).
           lia.
      * destruct (Hover i j r1 r2 k) as [-> Hd]; auto with arith.
    + now apply (Hover i j r1 r2 k).
Qed.

Lemma ranges_share_decorator_lines_only_witness :
  find_code_block_boundaries two_defs "python" = Return [(0, 3); (2, 5)]
  /\ 0 < 1
  /\ in_range 2 (0, 3) = true /\ in_range 2 (2, 5) = true
  /\ "python"%string = "python"%string /\ 1 = 1
  /\ is_decorator (nth 2 two_defs []) = true.
Proof.
  split; [reflexivity|]. split; [lia|].
  split; [reflexivity|]. split; [reflexivity|].
  apply (ranges_share_decorator_lines_only two_defs "python"
           [(0, 3); (2, 5)] eq_refl 0 1 (0, 3) (2, 5) 2);
    [lia | reflexivity | reflexivity | reflexivity | reflexivity].
Defined.

(* ================================================================== *)
(** * Properties of the callers and consumers *)

(* ------------------------------------------------------------------ *)
(** ** The language of a path *)

Lemma dict_get_range d key default :
  dict_get d key default = default \/ In (dict_get d key default) (map snd d).
Proof.
  induction d as [|[k0 v] d IH]; simpl; [now left|].
  destruct (k0 =? key)%string; [right; now left|].
  destruct IH as [->|IH]; [now left | right; now right].
Qed.

Lemma dict_get_missing d key default :
  str_in key (map fst d) = false -> dict_get d key default = default.
Proof.
  unfold str_in. induction d as [|[k0 v] d IH]; simpl; [reflexivity|].
  intros H. apply orb_false_iff in H as [H1 H2].
  rewrite String.eqb_sym in H1. rewrite H1. now apply IH.
Qed.

(** X8: [detect_language_from_path] returns one of nine tags, and [text] for
    every extension that is not a key of [EXT_LANG_MAP], the empty one
    included. *)
Theorem detected_language_is_a_known_tag p :
  In (detect_language_from_path p)
    [ "python"; "javascript"; "typescript"; "json"; "markdown"; "toml";
      "yaml"; "ini"; "text" ]%string
  /\ (str_in (path_suffix_lower p) (map fst EXT_LANG_MAP) = false ->
      detect_language_from_path p = "text"%string).
Proof.
  unfold detect_language_from_path. split.
  - destruct (dict_get_range EXT_LANG_MAP (path_suffix_lower p) "text")
      as [->|H].
    + simpl. tauto.
    + simpl in H. simpl. intuition.
  - apply dict_get_missing.
Qed.

(* ------------------------------------------------------------------ *)
(** ** [iter_files] *)

Lemma str_in_In x s : str_in x s = true <-> In x s.
Proof.
  unfold str_in. rewrite existsb_exists. split.
  - intros (y & Hy & E). apply String.eqb_eq in E. now subst.
  - intros H. exists x. split; [exact H | apply String.eqb_refl].
Qed.

Lemma iter_files_In walk p :
  In p (iter_files walk) ->
  exists fp,
    In fp walk /\ entry_path fp = p /\ entry_is_file fp = true
    /\ (forall part, In part (entry_parts fp) -> ~ In part exclude_dirs)
    /\ In (path_suffix_lower p) include_exts.
Proof.
  unfold iter_files. intros H. apply in_map_iff in H as (fp & <- & H).
  apply filter_In in H as (Hin & H).
  apply andb_true_iff in H as [H Hext]. apply andb_true_iff in H as [Hfile Hex].
  exists fp. repeat split; try assumption.
  - intros part Hpart Hbad. apply negb_true_iff in Hex.
    assert (E : existsb (fun part => str_in part exclude_dirs)
                  (entry_parts fp) = true).
    { apply existsb_exists. exists part. split; [exact Hpart|].
      now apply str_in_In. }
    congruence.
  - now apply str_in_In.
Qed.

(** X9: every path [iter_files] yields has one of the fourteen extensions; the
    chunker uses a block heuristic for it exactly when the extension is
    [.py], [.js], [.jsx], [.ts] or [.tsx]; a [.pyi] stub has no entry in
    [EXT_LANG_MAP] and is chunked as [text]. *)
Theorem yielded_files_and_their_language walk p :
  In p (iter_files walk) ->
  In (path_suffix_lower p) include_exts
  /\ (pattern_of (detect_language_from_path p) <> None
      <-> In (path_suffix_lower p) [".py"; ".js"; ".jsx"; ".ts"; ".tsx"]%string)
  /\ (path_suffix_lower p = ".pyi"%string ->
      detect_language_from_path p = "text"%string).
Proof.
  intros H. apply iter_files_In in H as (_ & _ & _ & _ & _ & Hext).
  split; [exact Hext|].
  unfold detect_language_from_path.
  simpl in Hext.
  repeat (destruct Hext as [Hext|Hext];
          [rewrite <- Hext; split;
           [split;
            [intros Hp; first [simpl; tauto | exfalso; apply Hp; reflexivity]
            | intros Hp; first [discriminate | simpl in Hp; intuition discriminate]]
           | intros E; first [reflexivity | discriminate]]|]).
  destruct Hext.
Qed.

Lemma yielded_files_and_their_language_witness :
  map path_str (iter_files demo_walk) = ["proj/src/a.py"; "proj/src/a.pyi"]%string
  /\ exists p,
      In p (iter_files demo_walk)
      /\ In (path_suffix_lower p) include_exts
      /\ (pattern_of (detect_language_from_path p) <> None
          <-> In (path_suffix_lower p)
                [".py"; ".js"; ".jsx"; ".ts"; ".tsx"]%string)
      /\ (path_suffix_lower p = ".pyi"%string ->
          detect_language_from_path p = "text"%string).
Proof.
  split; [reflexivity|].
  eexists. split; [right; left; reflexivity|].
  apply (yielded_files_and_their_language demo_walk).
  right; left; reflexivity.
Defined.

(** X10: a root path with a component that is one of the excluded directory
    names (a checkout under [build/], say) makes [iter_files] yield
    nothing: the test looks at all parts of a path, the root's included. *)
Theorem excluded_root_yields_nothing root_parts walk :
  (exists part, In part root_parts /\ In part exclude_dirs) ->
  (forall fp, In fp walk -> exists rel, entry_parts fp = root_parts ++ rel) ->
  iter_files walk = [].
Proof.
  intros (part & Hpart & Hbad) Hwalk. unfold iter_files.
  replace (filter _ walk) with (@nil Entry); [reflexivity|].
  symmetry. induction walk as [|fp walk IH]; [reflexivity|].
  cbn [filter].
  assert (E : existsb (fun part => str_in part exclude_dirs)
                (entry_parts fp) = true).
  { destruct (Hwalk fp (or_introl eq_refl)) as (rel & ->).
    apply existsb_exists. exists part. split.
    - apply in_or_app. now left.
    - now apply str_in_In. }
  rewrite E, andb_false_r. cbn [negb andb].
  apply IH. intros fp' Hin. apply Hwalk. now right.
Qed.

Lemma excluded_root_yields_nothing_witness :
  (exists part, In part ["build"%string] /\ In part exclude_dirs)
  /\ (forall fp, In fp build_walk ->
        exists rel, entry_parts fp = ["build"%string] ++ rel)
  /\ iter_files build_walk = []
  /\ map path_str (iter_files demo_walk)
     = ["proj/src/a.py"; "proj/src/a.pyi"]%string.
Proof.
  assert (H1 : exists part, In part ["build"%string] /\ In part exclude_dirs).
  { exists "build"%string. split; [now left | simpl; tauto]. }
  assert (H2 : forall fp, In fp build_walk ->
                 exists rel, entry_parts fp = ["build"%string] ++ rel).
  { unfold build_walk. intros fp Hin.
    apply in_map_iff in Hin as (e & <- & _). simpl. eauto. }
  split; [exact H1|]. split; [exact H2|]. split; [|reflexivity].
  exact (excluded_root_yields_nothing ["build"%string] build_walk H1 H2).
Defined.

(* ------------------------------------------------------------------ *)
(** ** From the files to the documents to index *)



Lemma ensure_minimal_indexed c : ensure_minimal (indexed c) = indexed c.
Proof. reflexivity. Qed.





(* ------------------------------------------------------------------ *)
(** ** [format_context] *)

(** X12: a chunk of the chunker always gets a header with its citation: the
    file name, or the path when the name is empty, and the range
    [[line_start-line_end]], since neither line number can be 0. *)
Theorem chunk_header_cites_range p lang (lines : list str) chunk_max_lines
    fuel docs d :
  produce_chunks p lang lines chunk_max_lines fuel = Return docs ->
  In d docs ->
  context_header (doc_metadata (as_doc d))
  = text_of ("### "
             ++ (if (path_name p =? "")%string then path_str p else path_name p)
             ++ " [" ++ value_str (VInt (line_start (metadata d)))
             ++ "-" ++ value_str (VInt (line_end (metadata d))) ++ "]").
Proof.
  intros H Hd.
  destruct (produce_chunks_In _ _ _ _ _ _ _ H Hd)
    as (Hmax & bs & s & e & cur & _ & _ & Hcur & -> & _).
  unfold context_header, as_doc, metadata_dict, make_document.
  cbn [doc_metadata metadata path filename language chunk_type line_start
       line_end md_get md_find String.eqb Ascii.eqb Bool.eqb].
  assert (E1 : (cur + 1 =? 0)%Z = false) by (apply Z.eqb_neq; lia).
  assert (E2 : (chunk_end_of chunk_max_lines cur (Z.of_nat e) =? 0)%Z = false)
    by (apply Z.eqb_neq; unfold chunk_end_of; lia).
  unfold value_or, value_truthy. rewrite E1, E2. cbn [negb andb].
  destruct (path_name p =? "")%string; reflexivity.
Qed.

Lemma chunk_header_cites_range_witness :
  exists docs d,
    produce_chunks mod_py "python" ten_lines 400 10 = Return docs
    /\ In d docs
    /\ context_header (doc_metadata (as_doc d)) = lit "### mod.py [3-5]"
    /\ context_header (doc_metadata (as_doc d))
       = text_of ("### "
                  ++ (if (path_name mod_py =? "")%string
                      then path_str mod_py else path_name mod_py)
                  ++ " [" ++ value_str (VInt (line_start (metadata d)))
                  ++ "-" ++ value_str (VInt (line_end (metadata d))) ++ "]").
Proof.
  eexists. eexists.
  split; [vm_compute; reflexivity|]. split; [right; left; reflexivity|].
  split; [vm_compute; reflexivity|].
  eapply (chunk_header_cites_range mod_py "python" ten_lines 400 10);
    [vm_compute; reflexivity | right; left; reflexivity].
Defined.

Lemma str_join_cons sep x (l : list str) :
  l <> [] -> str_join sep (x :: l) = x ++ sep ++ str_join sep l.
Proof. destruct l; [congruence | reflexivity]. Qed.

Lemma str_join_app sep (l1 l2 : list str) :
  l1 <> [] -> l2 <> [] ->
  str_join sep (l1 ++ l2) = str_join sep l1 ++ sep ++ str_join sep l2.
Proof.
  intros H1 H2. induction l1 as [|x l1 IH]; [congruence|].
  destruct l1 as [|y l1].
  - cbn [app]. now rewrite str_join_cons.
  - change ((x :: y :: l1) ++ l2) with (x :: ((y :: l1) ++ l2)).
    rewrite str_join_cons by discriminate.
    rewrite IH by discriminate.
    rewrite (str_join_cons sep x (y :: l1)) by discriminate.
    now rewrite <- !app_assoc.
Qed.

Lemma format_context_app ds1 ds2 :
  ds1 <> [] -> ds2 <> [] ->
  format_context (ds1 ++ ds2)
  = format_context ds1 ++ [10%N; 10%N] ++ format_context ds2.
Proof.
  intros H1 H2. unfold format_context. rewrite flat_map_app.
  apply str_join_app.
  - destruct ds1; [congruence | discriminate].
  - destruct ds2; [congruence | discriminate].
Qed.

(** X13: every document given to [format_context] is in the context: its
    header, a blank line and its text between two fence lines, unchanged;
    and the context of no documents is empty. *)
Theorem every_document_is_in_the_context docs :
  (forall d, In d docs ->
     exists before after,
       format_context docs
       = before
         ++ (context_header (doc_metadata d) ++ [10%N; 10%N]
             ++ lit "```" ++ [10%N] ++ doc_content d ++ [10%N] ++ lit "```")
         ++ after)
  /\ (docs = [] -> format_context docs = []).
Proof.
  split; [|now intros ->].
  intros d Hd.
  assert (Hone : format_context [d]
                 = context_header (doc_metadata d) ++ [10%N; 10%N]
                   ++ lit "```" ++ [10%N] ++ doc_content d
                   ++ [10%N] ++ lit "```").
  { unfold format_context. cbn [flat_map context_parts app str_join].
    unfold context_fence. now rewrite <- app_assoc. }
  apply in_split in Hd as (l1 & l2 & ->).
  change (l1 ++ d :: l2) with (l1 ++ [d] ++ l2).
  destruct l1 as [|a l1], l2 as [|b l2].
  - exists [], []. cbn [app]. rewrite Hone. now rewrite app_nil_r.
  - exists [], ([10%N; 10%N] ++ format_context (b :: l2)).
    rewrite app_nil_l, format_context_app by discriminate.
    now rewrite Hone.
  - exists (format_context (a :: l1) ++ [10%N; 10%N]), [].
    rewrite app_nil_r, format_context_app by discriminate.
    rewrite Hone. now rewrite <- !app_assoc.
  - exists (format_context (a :: l1) ++ [10%N; 10%N]),
           ([10%N; 10%N] ++ format_context (b :: l2)).
    rewrite format_context_app by discriminate.
    rewrite (format_context_app [d]) by discriminate.
    rewrite Hone. now rewrite <- !app_assoc.
Qed.

Lemma every_document_is_in_the_context_witness :
  exists docs d,
    produce_chunks mod_py "python" ten_lines 400 10 = Return docs
    /\ nth_error docs 0 = Some d
    /\ format_context [as_doc d]
       = lit "### mod.py [1-2]" ++ [10%N; 10%N] ++ lit "```" ++ [10%N]
         ++ lit "import os" ++ [10%N] ++ lit "```"
    /\ exists before after,
        format_context (map as_doc docs)
        = before
          ++ (context_header (doc_metadata (as_doc d)) ++ [10%N; 10%N]
              ++ lit "```" ++ [10%N] ++ doc_content (as_doc d)
              ++ [10%N] ++ lit "```")
          ++ after.
Proof.
  eexists. eexists.
  split; [vm_compute; reflexivity|]. split; [reflexivity|].
  split; [vm_compute; reflexivity|].
  apply (proj1 (every_document_is_in_the_context _)).
  left; reflexivity.
Defined.

(* ------------------------------------------------------------------ *)
(** ** The intent of a question *)

Lemma lstrip_app_blank ws s : blank ws = true -> lstrip (ws ++ s) = lstrip s.
Proof.
  induction ws as [|c ws IH]; simpl; [reflexivity|].
  intros H. apply andb_true_iff in H as [-> H]. now apply IH.
Qed.

Lemma lstrip_app_not_blank s t :
  blank s = false -> lstrip (s ++ t) = lstrip s ++ t.
Proof.
  induction s as [|c s IH]; simpl; [discriminate|].
  destruct (isspace c); simpl; [exact IH | reflexivity].
Qed.

Lemma rstrip_app_blank s ws : blank ws = true -> rstrip (s ++ ws) = rstrip s.
Proof.
  intros H. unfold rstrip. rewrite rev_app_distr.
  now rewrite lstrip_app_blank by (now rewrite blank_rev).
Qed.

Lemma rstrip_app_not_blank s t :
  blank t = false -> rstrip (s ++ t) = s ++ rstrip t.
Proof.
  intros H. unfold rstrip. rewrite rev_app_distr.
  rewrite lstrip_app_not_blank by (now rewrite blank_rev).
  now rewrite rev_app_distr, rev_involutive.
Qed.

(** [strip] does not see whitespace around its argument. *)
Lemma strip_padding ws1 s ws2 :
  blank ws1 = true -> blank ws2 = true -> strip (ws1 ++ s ++ ws2) = strip s.
Proof.
  intros H1 H2. unfold strip.
  rewrite app_assoc, rstrip_app_blank by exact H2.
  destruct (blank s) eqn:E.
  - rewrite !lstrip_blank; try reflexivity.
    + now rewrite blank_rstrip.
    + now rewrite blank_rstrip, blank_app, H1, E.
  - rewrite rstrip_app_not_blank by exact E.
    now apply lstrip_app_blank.
Qed.

Lemma startswith_split s p :
  startswith s p = true <-> exists r, s = p ++ r.
Proof.
  unfold startswith. revert s. induction p as [|a p IH]; intros s; simpl.
  - split; [eauto | reflexivity].
  - destruct s as [|b s].
    + split; [discriminate | intros (r & Hr); discriminate].
    + destruct (N.eqb_spec a b) as [->|Hne].
      * rewrite IH. split; intros (r & Hr); exists r; congruence.
      * split; [discriminate | intros (r & Hr); congruence].
Qed.

Lemma matches_Lit l s : matches (Lit l) s = startswith s l.
Proof. unfold matches, startswith. simpl. now destruct (strip_prefix l s). Qed.

Lemma matches_Alt r1 r2 s :
  matches (Alt r1 r2) s = matches r1 s || matches r2 s.
Proof. reflexivity. Qed.

Lemma lit_app p p' : lit (p ++ p') = lit p ++ lit p'.
Proof.
  unfold lit. induction p as [|a p IH]; simpl; [reflexivity|]. now rewrite IH.
Qed.

(** A longer literal matches only where its beginning does. *)
Lemma starts_longer s p p' :
  starts s (p ++ p') = true -> starts s p = true.
Proof.
  unfold starts. rewrite !startswith_split, lit_app. intros (r & ->).
  exists (lit p' ++ r). now rewrite <- app_assoc.
Qed.

(** Two literals that differ inside their common length cannot both begin
    the same text. *)
Lemma starts_exclusive s p1 p2 :
  (forall r1 r2, lit p1 ++ r1 <> lit p2 ++ r2) ->
  starts s p1 = true -> starts s p2 = false.
Proof.
  unfold starts. intros Hne H1.
  destruct (startswith s (lit p2)) eqn:H2; [|reflexivity].
  apply startswith_split in H1 as (r1 & E1).
  apply startswith_split in H2 as (r2 & E2).
  exfalso. apply (Hne r1 r2). congruence.
Qed.

Ltac differ := intros ? ? E; cbn in E; discriminate E.

Lemma matches_file_pattern q :
  matches file_pattern q
  = starts q "where" || starts q "which file" || starts q "what file".
Proof.
  unfold file_pattern. rewrite !matches_Alt, !matches_Lit. fold (starts q "where").
  fold (starts q "which file"). fold (starts q "what file").
  fold (starts q "where is").
  destruct (starts q "where is") eqn:E.
  - apply (starts_longer q "where" " is") in E. rewrite E. reflexivity.
  - now rewrite orb_false_r, orb_assoc.
Qed.

Lemma matches_how_pattern q : matches how_pattern q = starts q "how".
Proof.
  unfold how_pattern. rewrite !matches_Alt, !matches_Lit. fold (starts q "how").
  fold (starts q "how do"). fold (starts q "how can"). fold (starts q "how to").
  destruct (starts q "how") eqn:E; [reflexivity|]. simpl.
  destruct (starts q "how do") eqn:E1;
    [apply (starts_longer q "how" " do") in E1; congruence|].
  destruct (starts q "how can") eqn:E2;
    [apply (starts_longer q "how" " can") in E2; congruence|].
  destruct (starts q "how to") eqn:E3;
    [apply (starts_longer q "how" " to") in E3; congruence|].
  reflexivity.
Qed.

Lemma matches_why_pattern q :
  matches why_pattern q
  = starts q "why" || starts q "explain why" || starts q "what is the reason".
Proof.
  unfold why_pattern. rewrite !matches_Alt, !matches_Lit.
  now rewrite orb_assoc.
Qed.

Section IntentFacts.

Variable lower : str -> str.

(** X14: whitespace around a question does not change its intent. *)
Theorem intent_ignores_padding ws1 query ws2 :
  blank ws1 = true -> blank ws2 = true ->
  detect_intent lower (ws1 ++ query ++ ws2) = detect_intent lower query.
Proof.
  intros H1 H2. unfold detect_intent. now rewrite strip_padding.
Qed.

(** X15: the number of results asked for a question is decided by how the
    stripped, lower-cased question begins: 3 for [where], [which file] and
    [what file]; 6 for [how], [why], [explain why] and
    [what is the reason]; 5 for everything else.  The other alternatives
    of the three patterns add nothing, and no question matches two of the
    patterns, so the order of the tests does not matter. *)
Theorem result_count_by_question_prefix query :
  let q := lower (strip query) in
  let n := kw_k (retriever_search_kwargs (Some (detect_intent lower query))) in
  (n = 3%Z <-> starts q "where" = true \/ starts q "which file" = true
               \/ starts q "what file" = true)
  /\ (n = 6%Z <-> starts q "how" = true \/ starts q "why" = true
                  \/ starts q "explain why" = true
                  \/ starts q "what is the reason" = true)
  /\ (n <> 3%Z /\ n <> 6%Z -> n = 5%Z)
  /\ (matches file_pattern q && matches how_pattern q = false)
  /\ (matches file_pattern q && matches why_pattern q = false)
  /\ (matches how_pattern q && matches why_pattern q = false).
Proof.
  intros q n. subst n. unfold retriever_search_kwargs, detect_intent.
  fold q. rewrite matches_file_pattern, matches_how_pattern, matches_why_pattern.
  (* the prefixes exclude one another *)
  assert (X1 : starts q "how" = true -> starts q "where" = false)
    by (apply starts_exclusive; differ).
  assert (X2 : starts q "how" = true -> starts q "which file" = false)
    by (apply starts_exclusive; differ).
  assert (X3 : starts q "how" = true -> starts q "what file" = false)
    by (apply starts_exclusive; differ).
  assert (Y1 : starts q "why" = true -> starts q "where" = false)
    by (apply starts_exclusive; differ).
  assert (Y2 : starts q "why" = true -> starts q "which file" = false)
    by (apply starts_exclusive; differ).
  assert (Y3 : starts q "why" = true -> starts q "what file" = false)
    by (apply starts_exclusive; differ).
  assert (Y4 : starts q "why" = true -> starts q "how" = false)
    by (apply starts_exclusive; differ).
  assert (Z1 : starts q "explain why" = true -> starts q "where" = false)
    by (apply starts_exclusive; differ).
  assert (Z2 : starts q "explain why" = true -> starts q "which file" = false)
    by (apply starts_exclusive; differ).
  assert (Z3 : starts q "explain why" = true -> starts q "what file" = false)
    by (apply starts_exclusive; differ).
  assert (Z4 : starts q "explain why" = true -> starts q "how" = false)
    by (apply starts_exclusive; differ).
  assert (R1 : starts q "what is the reason" = true -> starts q "where" = false)
    by (apply starts_exclusive; differ).
  assert (R2 : starts q "what is the reason" = true
               -> starts q "which file" = false)
    by (apply starts_exclusive; differ).
  assert (R3 : starts q "what is the reason" = true
               -> starts q "what file" = false)
    by (apply starts_exclusive; differ).
  assert (R4 : starts q "what is the reason" = true -> starts q "how" = false)
    by (apply starts_exclusive; differ).
  destruct (starts q "where"), (starts q "which file"), (starts q "what file"),
    (starts q "how"), (starts q "why"), (starts q "explain why"),
    (starts q "what is the reason");
    try (specialize (X1 eq_refl)); try (specialize (X2 eq_refl));
    try (specialize (X3 eq_refl)); try (specialize (Y1 eq_refl));
    try (specialize (Y2 eq_refl)); try (specialize (Y3 eq_refl));
    try (specialize (Y4 eq_refl)); try (specialize (Z1 eq_refl));
    try (specialize (Z2 eq_refl)); try (specialize (Z3 eq_refl));
    try (specialize (Z4 eq_refl)); try (specialize (R1 eq_refl));
    try (specialize (R2 eq_refl)); try (specialize (R3 eq_refl));
    try (specialize (R4 eq_refl)); try discriminate;
    cbn; repeat split; intros; try tauto; try discriminate; try lia;
    intuition discriminate.
Qed.

End IntentFacts.

Lemma intent_ignores_padding_witness :
  blank (lit "  ") = true /\ blank [10%N] = true
  /\ detect_intent ascii_lower (lit "Where is the parser defined?") = "file"%string
  /\ detect_intent ascii_lower
       (lit "  " ++ lit "Where is the parser defined?" ++ [10%N])
     = detect_intent ascii_lower (lit "Where is the parser defined?").
Proof.
  split; [reflexivity|]. split; [reflexivity|]. split; [reflexivity|].
  apply (intent_ignores_padding ascii_lower); reflexivity.
Defined.

Lemma result_count_by_question_prefix_witness :
  kw_k (retriever_search_kwargs
          (Some (detect_intent ascii_lower (lit "How do I ingest a repo?"))))
  = 6%Z
  /\ starts (ascii_lower (strip (lit "How do I ingest a repo?"))) "how" = true
  /\ kw_k (retriever_search_kwargs
             (Some (detect_intent ascii_lower (lit "What does ingest do?"))))
     = 5%Z.
Proof.
  split; [|split; reflexivity].
  apply (proj1 (proj2 (result_count_by_question_prefix ascii_lower
                          (lit "How do I ingest a repo?")))).
  left. reflexivity.
Defined.
